(** * js_download: URL-to-path mapping, header merging, the per-URL worker
      and the download scheduler of [dl/js_download.py]

    Python [str] values are modelled as [string]; a character is a code
    point below 256.  Library calls the program makes ([re.sub],
    [str.strip], [str.split], [urllib.parse.urlparse], [os.path.join],
    [os.path.splitext]) are written out as functions on [string], following
    CPython 3.11 on POSIX.  What the operating system and the network decide
    ([os.makedirs], [os.path.exists], [open], [requests.get], the iteration
    order of a [set], the completion order of the pool) is the interface
    [Runtime].

    Which URLs the path mapper refuses depends on characters past code
    point 255: [Module Unicode] has the mapper on sequences of arbitrary
    code points, and [create_directory_structure_latin1] shows that the two
    agree on code points below 256. *)

From Stdlib Require Import Ascii String.
From stdpp Require Import gmap strings list pretty.

(** ** Python [str] operations *)

Module Str.

Definition chr (n : nat) : ascii := ascii_of_nat n.
Definition ord (c : ascii) : nat := nat_of_ascii c.

(** [c in s] *)
Fixpoint contains (c : ascii) (s : string) : bool :=
  match s with
  | EmptyString => false
  | String a s' => if Ascii.eqb a c then true else contains c s'
  end.

(** [s.find(c)], [None] for -1 *)
Fixpoint find (c : ascii) (s : string) : option nat :=
  match s with
  | EmptyString => None
  | String a s' => if Ascii.eqb a c then Some 0 else S <$> find c s'
  end.

(** [s.rfind(c)], [None] for -1 *)
Fixpoint rfind (c : ascii) (s : string) : option nat :=
  match s with
  | EmptyString => None
  | String a s' =>
      match rfind c s' with
      | Some i => Some (S i)
      | None => if Ascii.eqb a c then Some 0 else None
      end
  end.

(** [s[:n]] *)
Fixpoint slice_to (n : nat) (s : string) : string :=
  match n, s with
  | S n', String a s' => String a (slice_to n' s')
  | _, _ => EmptyString
  end.

(** [s[n:]] *)
Fixpoint slice_from (n : nat) (s : string) : string :=
  match n, s with
  | S n', String _ s' => slice_from n' s'
  | _, _ => s
  end.

(** [s[i:j]] *)
Definition slice (i j : nat) (s : string) : string :=
  slice_to (j - i) (slice_from i s).

(** [s.find(c, start)] *)
Definition find_from (c : ascii) (start : nat) (s : string) : option nat :=
  (λ i, start + i) <$> find c (slice_from start s).

(** [s.split(c, 1)] when [c in s]: the text before and after the first [c] *)
Fixpoint split_once (c : ascii) (s : string) : option (string * string) :=
  match s with
  | EmptyString => None
  | String a s' =>
      if Ascii.eqb a c then Some (EmptyString, s')
      else match split_once c s' with
           | Some (l, r) => Some (String a l, r)
           | None => None
           end
  end.

(** [s.split(c)] *)
Fixpoint split (c : ascii) (s : string) : list string :=
  match s with
  | EmptyString => [EmptyString]
  | String a s' =>
      if Ascii.eqb a c then EmptyString :: split c s'
      else match split c s' with
           | seg :: rest => String a seg :: rest
           | [] => [String a EmptyString]
           end
  end.

(** [s.lstrip(chars)], [s.rstrip(chars)], [s.strip(chars)], the character
    set given as a predicate *)
Fixpoint lstrip (p : ascii → bool) (s : string) : string :=
  match s with
  | EmptyString => EmptyString
  | String a s' => if p a then lstrip p s' else s
  end.

Fixpoint rstrip (p : ascii → bool) (s : string) : string :=
  match s with
  | EmptyString => EmptyString
  | String a s' =>
      match rstrip p s' with
      | EmptyString => if p a then EmptyString else String a EmptyString
      | r => String a r
      end
  end.

Definition strip (p : ascii → bool) (s : string) : string :=
  lstrip p (rstrip p s).

(** [s.replace(c, "")] for every [c] satisfying [p] *)
Fixpoint remove (p : ascii → bool) (s : string) : string :=
  match s with
  | EmptyString => EmptyString
  | String a s' => if p a then remove p s' else String a (remove p s')
  end.

(** [all(p(c) for c in s)] *)
Fixpoint all (p : ascii → bool) (s : string) : bool :=
  match s with
  | EmptyString => true
  | String a s' => p a && all p s'
  end.

Definition startswith (pre s : string) : bool := String.prefix pre s.

Definition endswith (suf s : string) : bool :=
  (String.length suf <=? String.length s) &&
  String.eqb (slice_from (String.length s - String.length suf) s) suf.

Definition is_upper (c : ascii) : bool := (65 <=? ord c) && (ord c <=? 90).
Definition is_lower (c : ascii) : bool := (97 <=? ord c) && (ord c <=? 122).
Definition is_digit (c : ascii) : bool := (48 <=? ord c) && (ord c <=? 57).
(** [c.isascii() and c.isalpha()] *)
Definition is_ascii_alpha (c : ascii) : bool := is_upper c || is_lower c.

(** [str.isspace] on code points below 256 *)
Definition is_space (c : ascii) : bool :=
  ((9 <=? ord c) && (ord c <=? 13)) || ((28 <=? ord c) && (ord c <=? 32))
  || (ord c =? 133) || (ord c =? 160).

Definition lower_char (c : ascii) : ascii :=
  if is_upper c then chr (ord c + 32) else c.

Fixpoint map (f : ascii → ascii) (s : string) : string :=
  match s with
  | EmptyString => EmptyString
  | String a s' => String (f a) (map f s')
  end.

(** [s.lower()] on ASCII text *)
Definition lower (s : string) : string := map lower_char s.

(** [sep.join(parts)] *)
Definition join (sep : string) (parts : list string) : string :=
  String.concat sep parts.

(** [c * n] *)
Fixpoint repeat (c : ascii) (n : nat) : string :=
  match n with
  | 0 => EmptyString
  | S n' => String c (repeat c n')
  end.

(** [sub in s] *)
Fixpoint contains_str (sub s : string) : bool :=
  String.prefix sub s
  || match s with
     | EmptyString => false
     | String _ s' => contains_str sub s'
     end.

(** [s.lower()] on code points below 256: the ASCII capitals, and the
    capitals from 192 to 222 but for 215, the multiplication sign *)
Definition lower_char_latin1 (c : ascii) : ascii :=
  if is_upper c || ((192 <=? ord c) && (ord c <=? 222) && negb (ord c =? 215))
  then chr (ord c + 32) else c.

Definition lower_latin1 (s : string) : string := map lower_char_latin1 s.

(** [c.isascii()] *)
Definition is_ascii (c : ascii) : bool := ord c <? 128.

End Str.

(** ** [re.sub] with a character-class pattern *)

(** [re.sub(r'[...]', repl, s)]: every character of the class is replaced
    by [repl], the others are kept. *)
Fixpoint re_sub_class (cls : ascii → bool) (repl : string) (s : string) : string :=
  match s with
  | EmptyString => EmptyString
  | String a s' =>
      (if cls a then repl else String a EmptyString) +:+ re_sub_class cls repl s'
  end.

(** the class of the pattern of [sanitize_filename]: the characters
    less-than, greater-than, colon, double quote (code 34), vertical bar,
    question mark and asterisk *)
Definition forbidden_chars : list ascii :=
  ["<"; ">"; ":"; "034"; "|"; "?"; "*"]%char.

Definition is_forbidden (c : ascii) : bool :=
  existsb (Ascii.eqb c) forbidden_chars.

(** the characters [[a-zA-Z0-9]]; the pattern of line 55 is their complement *)
Definition is_alnum (c : ascii) : bool :=
  Str.is_lower c || Str.is_upper c || Str.is_digit c.

Definition sanitize_filename (filename : string) : string :=
  re_sub_class is_forbidden "_" filename.

(** ** Exceptions *)

(** The classes the handlers of [download_js] dispatch on:
    [requests.exceptions.Timeout] is a subclass of
    [requests.exceptions.RequestException], which is a subclass of
    [Exception]. A raised exception carries its most specific class among
    these three and the text of [str(e)]. *)
Inductive exn_class := Timeout | RequestException | Exception.

Record exn := Raise { exn_cls : exn_class; exn_str : string }.

Definition isinstance (e : exn) (c : exn_class) : bool :=
  match exn_cls e, c with
  | _, Exception => true
  | Timeout, _ => true
  | RequestException, RequestException => true
  | _, _ => false
  end.

Definition ValueError (msg : string) : exn := Raise Exception msg.

(** A computation that returns a value or raises. *)
Definition result (A : Type) : Type := exn + A.

Definition ret {A} (a : A) : result A := inr a.
Definition raise {A} (e : exn) : result A := inl e.
Definition bind {A B} (m : result A) (k : A → result B) : result B :=
  match m with
  | inl e => inl e
  | inr a => k a
  end.

Notation "'do' x <- m ; k" := (bind m (λ x, k))
  (at level 10, x pattern, m at level 100, k at level 200).

(** ** [urllib.parse] *)

Record ParseResult := {
  scheme : string;
  netloc : string;
  path : string;
  params : string;
  query : string;
  fragment : string
}.

Definition uses_params : list string :=
  [""; "ftp"; "hdl"; "prospero"; "http"; "imap"; "https"; "shttp"; "rtsp";
   "rtspu"; "sip"; "sips"; "mms"; "sftp"; "tel"].

Definition is_scheme_char (c : ascii) : bool :=
  Str.is_lower c || Str.is_upper c || Str.is_digit c
  || existsb (Ascii.eqb c) ["+"; "-"; "."]%char.

(** [_WHATWG_C0_CONTROL_OR_SPACE] *)
Definition is_c0_control_or_space (c : ascii) : bool := Str.ord c <=? 32.

(** [_UNSAFE_URL_BYTES_TO_REMOVE] *)
Definition is_unsafe_url_byte (c : ascii) : bool :=
  existsb (Ascii.eqb c) ["009"; "013"; "010"]%char.

Definition _splitnetloc (url : string) (start : nat) : string * string :=
  let delim :=
    foldl (λ delim c,
             match Str.find_from c start url with
             | Some wdelim => delim `min` wdelim
             | None => delim
             end)
          (String.length url) ["/"; "?"; "#"]%char in
  (Str.slice start delim url, Str.slice_from delim url).

Definition _splitparams (url : string) : string * string :=
  match Str.rfind "/" url with
  | Some slash =>
      match Str.find_from ";" slash url with
      | Some i => (Str.slice_to i url, Str.slice_from (S i) url)
      | None => (url, "")
      end
  | None =>
      match Str.find ";" url with
      | Some i => (Str.slice_to i url, Str.slice_from (S i) url)
      | None =>
          (* i = -1: url[:-1], url[0:]; not reached from urlparse, which
             calls only when ';' is in url *)
          (Str.slice_to (String.length url - 1) url, url)
      end
  end.

(** ** [os.path] on POSIX *)

(** [os.path.join(a, *p)] *)
Definition os_path_join (a : string) (p : list string) : string :=
  foldl (λ path b,
           if Str.startswith "/" b then b
           else if String.eqb path "" || Str.endswith "/" path then path +:+ b
           else path +:+ "/" +:+ b)
        a p.

(** [os.path.splitext(p)]: the extension starts at the last dot, unless that
    dot is before the last slash or only dots lie between the slash and it *)
Definition os_path_splitext (p : string) : string * string :=
  let filenameIndex := match Str.rfind "/" p with Some i => S i | None => 0 end in
  match Str.rfind "." p with
  | Some dotIndex =>
      if (filenameIndex <=? dotIndex)
         && negb (Str.all (λ c, Ascii.eqb c ".") (Str.slice filenameIndex dotIndex p))
      then (Str.slice_to dotIndex p, Str.slice_from dotIndex p)
      else (p, "")
  | None => (p, "")
  end.

(** ** The path mapper *)

Definition is_slash (c : ascii) : bool := Ascii.eqb c "/".

(** Lines 27-45 of [create_directory_structure]: [file_name] and
    [dir_parts] as they stand before sanitising and before the query suffix. *)
Definition file_and_dirs (parsed_url : ParseResult) : string * list string :=
  let domain := netloc parsed_url in
  let path := Str.strip is_slash (path parsed_url) in
  if negb (String.eqb path "") then
    let path_parts := Str.split "/" path in
    if Str.endswith ".js" (List.last path_parts "")
    then (List.last path_parts "", domain :: removelast path_parts)
    else ("index.js", domain :: path_parts)
  else ("index.js", [domain]).

(** [re.sub(r'[^a-zA-Z0-9]', '_', query)[:50]] *)
Definition query_safe (query : string) : string :=
  Str.slice_to 50 (re_sub_class (λ c, negb (is_alnum c)) "_" query).

(** Lines 50-57: the final file name from [file_name] and the query. *)
Definition final_file_name (file_name query : string) : string :=
  let file_name := sanitize_filename file_name in
  if negb (String.eqb query "") then
    let '(base_name, ext) := os_path_splitext file_name in
    base_name +:+ "_" +:+ query_safe query +:+ ext
  else file_name.

(** The scheme step of [urlsplit]: [i = url.find(':')]; with [i > 0], an
    ASCII letter first and only scheme characters before the colon, the
    lowered [url[:i]] is the scheme and [url[i+1:]] the rest. *)
Definition split_scheme (url : string) : string * string :=
  match Str.find ":" url, url with
  | Some (S _ as i), String c0 _ =>
      if Str.is_ascii_alpha c0 && Str.all is_scheme_char (Str.slice_to i url)
      then (Str.lower (Str.slice_to i url), Str.slice_from (S i) url)
      else ("", url)
  | _, _ => ("", url)
  end.

(** [_check_bracketed_netloc] of CPython before 3.11.4: no check *)
Definition accept_bracketed : string → option string := λ _, None.

Section UrlParse.

(** [_check_bracketed_netloc], called when the netloc holds both brackets:
    the message of the [ValueError] it raises, if it does.  It validates
    the bracketed host with the [ipaddress] module (and is absent before
    CPython 3.11.4), so it is left to the caller. *)
Variable _check_bracketed_netloc : string → option string.

(** The authority step of [urlsplit]: [if url[:2] == '//': ...], with the
    two bracket checks. *)
Definition split_authority (url : string) : result (string * string) :=
  if String.eqb (Str.slice_to 2 url) "//" then
    let '(netloc, url) := _splitnetloc url 2 in
    let has_open := Str.contains "[" netloc in
    let has_close := Str.contains "]" netloc in
    if (has_open && negb has_close) || (has_close && negb has_open)
    then raise (ValueError "Invalid IPv6 URL")
    else if has_open && has_close then
      match _check_bracketed_netloc netloc with
      | Some msg => raise (ValueError msg)
      | None => ret (netloc, url)
      end
    else ret (netloc, url)
  else ret ("", url).

(** [urlsplit(url)] on [str] with code points below 256.  There
    [_checknetloc] does nothing: it raises only when NFKC normalisation
    brings one of [/?#@:] into the netloc, which no code point below 256
    does.  [Unicode.urlsplit] below has the check, and
    [create_directory_structure_latin1] shows that the two agree here. *)
Definition urlsplit (url : string)
  : result (string * string * string * string * string) :=
  let url := Str.lstrip is_c0_control_or_space url in
  let url := Str.remove is_unsafe_url_byte url in
  let '(scheme, url) := split_scheme url in
  do (netloc, url) <- split_authority url;
  let '(url, fragment) :=
    match Str.split_once "#" url with
    | Some (u, f) => (u, f)
    | None => (url, "")
    end in
  let '(url, query) :=
    match Str.split_once "?" url with
    | Some (u, q) => (u, q)
    | None => (url, "")
    end in
  ret (scheme, netloc, url, query, fragment).

Definition urlparse (url : string) : result ParseResult :=
  do (scheme, netloc, url, query, fragment) <- urlsplit url;
  let '(url, params) :=
    if bool_decide (scheme ∈ uses_params) && Str.contains ";" url
    then _splitparams url
    else (url, "") in
  ret {| scheme := scheme; netloc := netloc; path := url;
         params := params; query := query; fragment := fragment |}.

Definition create_directory_structure (url base_dir : string)
  : result (string * string) :=
  do parsed_url <- urlparse url;
  let '(file_name, dir_parts) := file_and_dirs parsed_url in
  let dir_path := os_path_join base_dir (sanitize_filename <$> dir_parts) in
  let file_name := final_file_name file_name (query parsed_url) in
  ret (dir_path, file_name).

End UrlParse.

(** ** The path mapper on all of Unicode *)

(** The same functions on every Python [str]: a text is a sequence of
    code points.  They are used to say which URLs the mapper refuses;
    everywhere else the program is followed on [string]. *)

Module Unicode.

Definition text : Type := list N.

(** the code point of a character, and a text from a literal *)
Definition code (c : ascii) : N := N_of_ascii c.

Fixpoint of_string (s : string) : text :=
  match s with
  | EmptyString => []
  | String c s' => code c :: of_string s'
  end.

(** *** [str] operations *)

Definition contains (c : N) (s : text) : bool := existsb (N.eqb c) s.

Fixpoint find (c : N) (s : text) : option nat :=
  match s with
  | [] => None
  | a :: s' => if N.eqb a c then Some 0 else S <$> find c s'
  end.

Fixpoint rfind (c : N) (s : text) : option nat :=
  match s with
  | [] => None
  | a :: s' =>
      match rfind c s' with
      | Some i => Some (S i)
      | None => if N.eqb a c then Some 0 else None
      end
  end.

Definition slice_to (n : nat) (s : text) : text := take n s.
Definition slice_from (n : nat) (s : text) : text := drop n s.
Definition slice (i j : nat) (s : text) : text := slice_to (j - i) (slice_from i s).

Definition find_from (c : N) (start : nat) (s : text) : option nat :=
  (λ i, start + i) <$> find c (slice_from start s).

Fixpoint split_once (c : N) (s : text) : option (text * text) :=
  match s with
  | [] => None
  | a :: s' =>
      if N.eqb a c then Some ([], s')
      else match split_once c s' with
           | Some (l, r) => Some (a :: l, r)
           | None => None
           end
  end.

Fixpoint split (c : N) (s : text) : list text :=
  match s with
  | [] => [[]]
  | a :: s' =>
      if N.eqb a c then [] :: split c s'
      else match split c s' with
           | seg :: rest => (a :: seg) :: rest
           | [] => [[a]]
           end
  end.

Fixpoint lstrip (p : N → bool) (s : text) : text :=
  match s with
  | [] => []
  | a :: s' => if p a then lstrip p s' else s
  end.

Fixpoint rstrip (p : N → bool) (s : text) : text :=
  match s with
  | [] => []
  | a :: s' =>
      match rstrip p s' with
      | [] => if p a then [] else [a]
      | r => a :: r
      end
  end.

Definition strip (p : N → bool) (s : text) : text := lstrip p (rstrip p s).

Definition remove (p : N → bool) (s : text) : text :=
  List.filter (λ c, negb (p c)) s.

Definition all (p : N → bool) (s : text) : bool := forallb p s.

Definition startswith (pre s : text) : bool :=
  bool_decide (slice_to (length pre) s = pre).

Definition endswith (suf s : text) : bool :=
  (length suf <=? length s) && bool_decide (slice_from (length s - length suf) s = suf).

Definition is_upper (c : N) : bool := ((65 <=? c) && (c <=? 90))%N.
Definition is_lower (c : N) : bool := ((97 <=? c) && (c <=? 122))%N.
Definition is_digit (c : N) : bool := ((48 <=? c) && (c <=? 57))%N.
Definition is_ascii_alpha (c : N) : bool := is_upper c || is_lower c.
Definition is_ascii (c : N) : bool := (c <? 128)%N.

Definition lower_char (c : N) : N := if is_upper c then (c + 32)%N else c.

(** [s.lower()] on ASCII text *)
Definition lower (s : text) : text := lower_char <$> s.

(** *** [re.sub], [sanitize_filename] *)

Definition re_sub_class (cls : N → bool) (repl : text) (s : text) : text :=
  s ≫= λ a, if cls a then repl else [a].

Definition is_forbidden (c : N) : bool :=
  existsb (N.eqb c) (code <$> forbidden_chars).

Definition is_alnum (c : N) : bool := is_lower c || is_upper c || is_digit c.

Definition sanitize_filename (filename : text) : text :=
  re_sub_class is_forbidden (of_string "_") filename.

(** *** Exceptions *)

(** an exception: its class and the text of [str(e)] *)
Definition error : Type := exn_class * text.

Definition ValueError (msg : text) : error := (Exception, msg).

Definition result (A : Type) : Type := error + A.

(** *** [urllib.parse] *)

Record ParseResult := {
  scheme : text;
  netloc : text;
  path : text;
  params : text;
  query : text;
  fragment : text
}.

Definition is_scheme_char (c : N) : bool :=
  is_lower c || is_upper c || is_digit c
  || existsb (N.eqb c) (code <$> ["+"; "-"; "."]%char).

Definition is_c0_control_or_space (c : N) : bool := (c <=? 32)%N.

Definition is_unsafe_url_byte (c : N) : bool :=
  existsb (N.eqb c) (code <$> ["009"; "013"; "010"]%char).

Definition _splitnetloc (url : text) (start : nat) : text * text :=
  let delim :=
    foldl (λ delim c,
             match find_from c start url with
             | Some wdelim => delim `min` wdelim
             | None => delim
             end)
          (length url) (code <$> ["/"; "?"; "#"]%char) in
  (slice start delim url, slice_from delim url).

Definition _splitparams (url : text) : text * text :=
  match rfind (code "/") url with
  | Some slash =>
      match find_from (code ";") slash url with
      | Some i => (slice_to i url, slice_from (S i) url)
      | None => (url, [])
      end
  | None =>
      match find (code ";") url with
      | Some i => (slice_to i url, slice_from (S i) url)
      | None => (slice_to (length url - 1) url, url)
      end
  end.

Definition split_scheme (url : text) : text * text :=
  match find (code ":") url, url with
  | Some (S _ as i), c0 :: _ =>
      if is_ascii_alpha c0 && all is_scheme_char (slice_to i url)
      then (lower (slice_to i url), slice_from (S i) url)
      else ([], url)
  | _, _ => ([], url)
  end.

Section UrlParse.

(** [_check_bracketed_netloc]: the message of the [ValueError] it raises,
    if it does *)
Variable _check_bracketed_netloc : text → option text.

(** [unicodedata.normalize('NFKC', s)]; the tables of the Unicode
    database are not part of the program *)
Variable normalize_NFKC : text → text.

Definition split_authority (url : text) : result (text * text) :=
  if bool_decide (slice_to 2 url = of_string "//") then
    let '(netloc, url) := _splitnetloc url 2 in
    let has_open := contains (code "[") netloc in
    let has_close := contains (code "]") netloc in
    if (has_open && negb has_close) || (has_close && negb has_open)
    then inl (ValueError (of_string "Invalid IPv6 URL"))
    else if has_open && has_close then
      match _check_bracketed_netloc netloc with
      | Some msg => inl (ValueError msg)
      | None => inr (netloc, url)
      end
    else inr (netloc, url)
  else inr ([], url).

(** [_checknetloc(netloc)]: for a netloc that is not ASCII, the
    characters [@:#?] are taken out and the rest is normalised; if that
    changes it and one of [/?#@:] appears, the netloc is refused. *)
Definition _checknetloc (netloc : text) : result () :=
  if bool_decide (netloc = []) || all is_ascii netloc then inr ()
  else
    let n := remove (λ c, existsb (N.eqb c) (code <$> ["@"; ":"; "#"; "?"]%char)) netloc in
    let netloc2 := normalize_NFKC n in
    if bool_decide (n = netloc2) then inr ()
    else if existsb (λ c, contains c netloc2) (code <$> ["/"; "?"; "#"; "@"; ":"]%char)
    then inl (ValueError (of_string "netloc '" ++ netloc
                          ++ of_string "' contains invalid characters under NFKC normalization"))
    else inr ().

Definition urlsplit (url : text) : result (text * text * text * text * text) :=
  let url := lstrip is_c0_control_or_space url in
  let url := remove is_unsafe_url_byte url in
  let '(scheme, url) := split_scheme url in
  match split_authority url with
  | inl e => inl e
  | inr (netloc, url) =>
      let '(url, fragment) :=
        match split_once (code "#") url with
        | Some (u, f) => (u, f)
        | None => (url, [])
        end in
      let '(url, query) :=
        match split_once (code "?") url with
        | Some (u, q) => (u, q)
        | None => (url, [])
        end in
      match _checknetloc netloc with
      | inl e => inl e
      | inr _ => inr (scheme, netloc, url, query, fragment)
      end
  end.

Definition urlparse (url : text) : result ParseResult :=
  match urlsplit url with
  | inl e => inl e
  | inr (scheme, netloc, url, query, fragment) =>
      let '(url, params) :=
        if bool_decide (scheme ∈ of_string <$> uses_params)
           && contains (code ";") url
        then _splitparams url
        else (url, []) in
      inr {| scheme := scheme; netloc := netloc; path := url;
             params := params; query := query; fragment := fragment |}
  end.

End UrlParse.

(** *** [os.path] on POSIX *)

Definition os_path_join (a : text) (p : list text) : text :=
  foldl (λ path b,
           if startswith (of_string "/") b then b
           else if bool_decide (path = []) || endswith (of_string "/") path
                then path ++ b
                else path ++ of_string "/" ++ b)
        a p.

Definition os_path_splitext (p : text) : text * text :=
  let filenameIndex := match rfind (code "/") p with Some i => S i | None => 0 end in
  match rfind (code ".") p with
  | Some dotIndex =>
      if (filenameIndex <=? dotIndex)
         && negb (all (λ c, N.eqb c (code ".")) (slice filenameIndex dotIndex p))
      then (slice_to dotIndex p, slice_from dotIndex p)
      else (p, [])
  | None => (p, [])
  end.

(** *** The path mapper *)

Definition is_slash (c : N) : bool := N.eqb c (code "/").

Definition file_and_dirs (parsed_url : ParseResult) : text * list text :=
  let domain := netloc parsed_url in
  let path := strip is_slash (path parsed_url) in
  if negb (bool_decide (path = [])) then
    let path_parts := split (code "/") path in
    if endswith (of_string ".js") (List.last path_parts [])
    then (List.last path_parts [], domain :: removelast path_parts)
    else (of_string "index.js", domain :: path_parts)
  else (of_string "index.js", [domain]).

Definition query_safe (query : text) : text :=
  slice_to 50 (re_sub_class (λ c, negb (is_alnum c)) (of_string "_") query).

Definition final_file_name (file_name query : text) : text :=
  let file_name := sanitize_filename file_name in
  if negb (bool_decide (query = [])) then
    let '(base_name, ext) := os_path_splitext file_name in
    base_name ++ of_string "_" ++ query_safe query ++ ext
  else file_name.

Definition create_directory_structure (_check_bracketed_netloc : text → option text)
    (normalize_NFKC : text → text) (url base_dir : text) : result (text * text) :=
  match urlparse _check_bracketed_netloc normalize_NFKC url with
  | inl e => inl e
  | inr parsed_url =>
      let '(file_name, dir_parts) := file_and_dirs parsed_url in
      let dir_path := os_path_join base_dir (sanitize_filename <$> dir_parts) in
      let file_name := final_file_name file_name (query parsed_url) in
      inr (dir_path, file_name)
  end.

(** *** Vocabulary *)

(** The network location of a URL, as [urlsplit] reads it: leading
    control characters and spaces, then tabs and line breaks, then the scheme
    with its colon are taken off; if what is left starts with two slashes,
    the network location is the text after them up to the next slash,
    question mark or hash, and else it is empty. *)
Definition url_netloc (url : text) : text :=
  let url := lstrip is_c0_control_or_space url in
  let url := remove is_unsafe_url_byte url in
  let url := (split_scheme url).2 in
  if bool_decide (slice_to 2 url = of_string "//") then (_splitnetloc url 2).1 else [].

(** the characters [_checknetloc] takes out before it normalises, and
    the ones it then looks for *)
Definition is_netloc_mark (c : N) : bool :=
  existsb (N.eqb c) (code <$> ["@"; ":"; "#"; "?"]%char).

Definition url_delimiters : list N := code <$> ["/"; "?"; "#"; "@"; ":"]%char.

(** A network location passes the NFKC check when it is ASCII (or
    empty), or when normalising it, without its [@:#?], changes nothing or
    gives a text without any of [/?#@:]. *)
Definition nfkc_delimiter_free (normalize_NFKC : text → text) (netloc : text) : Prop :=
  all is_ascii netloc = true
  ∨ normalize_NFKC (remove is_netloc_mark netloc) = remove is_netloc_mark netloc
  ∨ ∀ c, c ∈ url_delimiters →
         contains c (normalize_NFKC (remove is_netloc_mark netloc)) = false.

(** What [urlparse] asks of a network location: both square brackets or
    neither; with both, a bracketed host that passes the check; and the
    NFKC check. *)
Definition netloc_accepted (_check_bracketed_netloc : text → option text)
    (normalize_NFKC : text → text) (netloc : text) : Prop :=
  contains (code "[") netloc = contains (code "]") netloc
  ∧ (contains (code "[") netloc = true → _check_bracketed_netloc netloc = None)
  ∧ nfkc_delimiter_free normalize_NFKC netloc.

(** a normalisation that changes nothing, for running the mapper on
    URLs whose network location is ASCII *)
Definition no_normalization : text → text := λ s, s.

(** a normalisation that knows one character, the account-of sign
    U+2100, whose NFKC form is [a/c] *)
Definition normalize_account_of (s : text) : text :=
  s ≫= λ c, if N.eqb c 8448 then of_string "a/c" else [c].

Definition accept_bracketed : text → option text := λ _, None.

End Unicode.

(** ** Header collection ([main], lines 194-206) *)

(** One [-H] argument: [if ':' in header: key, value = header.split(':', 1);
    custom_headers[key.strip()] = value.strip()] *)
Definition add_header (custom_headers : gmap string string) (header : string)
  : gmap string string :=
  match Str.split_once ":" header with
  | Some (key, value) =>
      <[Str.strip Str.is_space key := Str.strip Str.is_space value]> custom_headers
  | None => custom_headers
  end.

(** [args_headers] is [args.headers] ([None] without [-H]); [file_headers] is
    the mapping [load_headers_from_file] returned, [None] when
    [--header-file] is not given. [d.update(e)] is [e ∪ d], the union that
    prefers its left operand. *)
Definition collect_headers (args_headers : option (list string))
    (file_headers : option (gmap string string)) : gmap string string :=
  let custom_headers : gmap string string := ∅ in
  let custom_headers :=
    match args_headers with
    | Some headers => foldl add_header custom_headers headers
    | None => custom_headers
    end in
  match file_headers with
  | Some file_headers => file_headers ∪ custom_headers
  | None => custom_headers
  end.

Definition default_headers : gmap string string :=
  {[ "User-Agent" := "Mozilla/5.0 (Windows NT 10.0; Win64; x64) AppleWebKit/537.36" ]}.

(** Lines 79-85 of [download_js]: the headers sent with the request. *)
Definition request_headers (custom_headers : option (gmap string string))
  : gmap string string :=
  let headers := default_headers in
  match custom_headers with
  | Some custom_headers =>
      if bool_decide (custom_headers = ∅) then headers
      else custom_headers ∪ headers
  | None => headers
  end.

(** ** The runtime: operating system, network, scheduling choices *)

(** What [requests.get] returned: [http_error] is the message of the
    [HTTPError] that [raise_for_status] raises, if the status is an error. *)
Record Response := { http_error : option string; text : string }.

Definition HTTPError (msg : string) : exn := Raise RequestException msg.

Class Runtime := {
  (** [urllib.parse._check_bracketed_netloc] *)
  check_bracketed_netloc : string → option string;
  (** the state of the file system and of the network *)
  Sys : Type;
  (** [os.makedirs(path, exist_ok=True)] *)
  os_makedirs : string → Sys → result () * Sys;
  (** [os.path.exists(path)] *)
  os_path_exists : string → Sys → bool;
  (** [with open(path, 'w', encoding='utf-8') as f: f.write(text)] *)
  write_text : string → string → Sys → result () * Sys;
  (** [os.path.relpath(path, start)] *)
  os_path_relpath : string → string → Sys → string;
  (** [requests.get(url, headers=headers, timeout=30, verify=False)] *)
  requests_get : string → gmap string string → Sys → result Response * Sys;
  (** [list(set(urls))]: the order in which a set is iterated *)
  set_order : list string → list string;
  (** the order in which the pool runs and completes the submitted work *)
  completion_order : list string → list string
}.

(** What the statements below take for granted about the file system. *)
Class FileSystemLaws (R : Runtime) : Prop := {
  (** creating directories removes nothing *)
  os_makedirs_keeps d p s :
    os_path_exists p s = true → os_path_exists p (os_makedirs d s).2 = true
}.

(** What they take for granted about sets and the pool. *)
Class SchedulingLaws (R : Runtime) : Prop := {
  (** a set holds each element of the list once *)
  set_order_NoDup l : NoDup (set_order l);
  set_order_elem l x : x ∈ set_order l ↔ x ∈ l;
  (** the pool loses and repeats nothing *)
  completion_order_perm l : completion_order l ≡ₚ l
}.

Section Program.

Context {R : Runtime}.

(** The program state: the system, the requests sent so far (url and
    headers, oldest first) and the chunks written to standard output. *)
Record World := {
  sys : Sys;
  sent : list (string * gmap string string);
  stdout : list string
}.

(** A statement: from a world to a value or an exception, and a world. *)
Definition M (A : Type) : Type := World → result A * World.

Definition io_ret {A} (a : A) : M A := λ w, (inr a, w).
Definition io_raise {A} (e : exn) : M A := λ w, (inl e, w).
Definition io_bind {A B} (m : M A) (k : A → M B) : M B :=
  λ w, match m w with
       | (inr a, w') => k a w'
       | (inl e, w') => (inl e, w')
       end.

Notation "'io' x <- m ; k" := (io_bind m (λ x, k))
  (at level 10, x pattern, m at level 100, k at level 200).

Definition lift {A} (r : result A) : M A := λ w, (r, w).

Definition on_sys {A} (op : Sys → result A * Sys) : M A :=
  λ w, let '(r, s) := op (sys w) in
       (r, {| sys := s; sent := sent w; stdout := stdout w |}).

Definition nl : string := String (Str.chr 10) "".
Definition cr : string := String (Str.chr 13) "".

(** [print(s, end=e)] on a standard output that takes every write;
    [print_end_on] below is [print] on any standard output *)
Definition print_end (s e : string) : M () :=
  λ w, (inr (), {| sys := sys w; sent := sent w; stdout := stdout w ++ [s +:+ e] |}).
Definition print (s : string) : M () := print_end s nl.

Definition makedirs (p : string) : M () := on_sys (os_makedirs p).
Definition exists_ (p : string) : M bool := λ w, (inr (os_path_exists p (sys w)), w).
Definition write_file (p t : string) : M () := on_sys (write_text p t).
Definition relpath (p start : string) : M string :=
  λ w, (inr (os_path_relpath p start (sys w)), w).

(** the request is recorded in [sent], then handed to the network *)
Definition get (url : string) (headers : gmap string string) : M Response :=
  λ w, let '(r, s) := requests_get url headers (sys w) in
       (r, {| sys := s; sent := sent w ++ [(url, headers)]; stdout := stdout w |}).

Definition raise_for_status (response : Response) : M () :=
  match http_error response with
  | Some msg => io_raise (HTTPError msg)
  | None => io_ret ()
  end.

(** [try: body / except c1: h1 / except c2: h2 ...]: the first clause
    whose class the exception is an instance of handles it; with no such
    clause the exception goes on to the caller. *)
Fixpoint dispatch {A} (clauses : list (exn_class * (exn → M A))) (e : exn) : M A :=
  match clauses with
  | [] => io_raise e
  | (c, h) :: rest => if isinstance e c then h e else dispatch rest e
  end.

Definition try_except {A} (body : M A) (clauses : list (exn_class * (exn → M A))) : M A :=
  λ w, match body w with
       | (inr a, w') => (inr a, w')
       | (inl e, w') => dispatch clauses e w'
       end.

(** ** The per-URL worker *)

Definition download_js_try (url output_dir : string)
    (custom_headers : option (gmap string string)) : M (bool * string) :=
  io (dir_path, filename) <-
    lift (create_directory_structure check_bracketed_netloc url output_dir);
  io _ <- makedirs dir_path;
  let filepath := os_path_join dir_path [filename] in
  io found <- exists_ filepath;
  if found then
    io _ <- print ("[SKIP] Already exists: " +:+ filepath);
    io_ret (true, url)
  else
    let headers := request_headers custom_headers in
    io response <- get url headers;
    io _ <- raise_for_status response;
    io _ <- write_file filepath (text response);
    io relative_path <- relpath filepath output_dir;
    io _ <- print ("[SUCCESS] " +:+ url +:+ " -> " +:+ relative_path);
    io_ret (true, url).

Definition download_js (url output_dir : string)
    (custom_headers : option (gmap string string)) : M (bool * string) :=
  try_except (download_js_try url output_dir custom_headers)
    [ (Timeout, λ _,
         io _ <- print ("[TIMEOUT] " +:+ url);
         io_ret (false, url));
      (RequestException, λ e,
         io _ <- print ("[ERROR] " +:+ url +:+ ": " +:+ exn_str e);
         io_ret (false, url));
      (Exception, λ e,
         io _ <- print ("[ERROR] " +:+ url +:+ ": Unexpected error: " +:+ exn_str e);
         io_ret (false, url)) ].

(** ** The scheduler ([main], lines 237-261) *)

Record Tally := {
  successful : nat;
  failed : nat;
  failed_urls : list string;
  (** the pairs [future.result()] gave, in the order they were taken *)
  outcomes : list (bool * string)
}.

(** lines 238-241 *)
Definition remove_duplicates (urls : list string) : M (list string) :=
  let unique_urls := set_order urls in
  if length unique_urls <? length urls then
    io _ <- print ("Removed " +:+ pretty (length urls - length unique_urls)
                   +:+ " duplicate URLs");
    io_ret unique_urls
  else io_ret urls.

(** One turn of the loop over [as_completed(futures)], lines 251-261, for
    the future of [url]: the worker runs, [future.result()] returns its
    pair or raises what it raised. *)
Definition collect_one (total_urls : nat) (output_dir : string)
    (custom_headers : gmap string string) (t : Tally) (url : string) : M Tally :=
  io (success, url) <- download_js url output_dir (Some custom_headers);
  let t :=
    if success : bool then
      {| successful := successful t + 1; failed := failed t;
         failed_urls := failed_urls t; outcomes := outcomes t ++ [(success, url)] |}
    else
      {| successful := successful t; failed := failed t + 1;
         failed_urls := failed_urls t ++ [url];
         outcomes := outcomes t ++ [(success, url)] |} in
  let total := successful t + failed t in
  io _ <- print_end ("Progress: " +:+ pretty total +:+ "/" +:+ pretty total_urls
                     +:+ " (Success: " +:+ pretty (successful t)
                     +:+ ", Failed: " +:+ pretty (failed t) +:+ ")") cr;
  io_ret t.

Fixpoint collect (total_urls : nat) (output_dir : string)
    (custom_headers : gmap string string) (t : Tally) (futures : list string)
  : M Tally :=
  match futures with
  | [] => io_ret t
  | url :: rest =>
      io t <- collect_one total_urls output_dir custom_headers t url;
      collect total_urls output_dir custom_headers t rest
  end.

(** The workers are run one after another, in the order the runtime
    chooses; the blocking calls of different workers are not interleaved. *)
Definition run_downloads (urls : list string) (output_dir : string)
    (custom_headers : gmap string string) : M Tally :=
  io urls <- remove_duplicates urls;
  collect (length urls) output_dir custom_headers
    {| successful := 0; failed := 0; failed_urls := []; outcomes := [] |}
    (completion_order urls).

End Program.

(** ** The program on any standard output *)

(** [print] writes to [sys.stdout], and the write can raise:
    [BrokenPipeError] when the reader of a pipe has gone,
    [UnicodeEncodeError] for a character the encoding of the terminal lacks.
    The worker and the scheduler are given here with the standard output as
    a parameter; on one that takes every write they are [download_js] and
    [run_downloads] above. *)

Section Console.

Context {R : Runtime}.

Notation "'io' x <- m ; k" := (io_bind m (λ x, k))
  (at level 10, x pattern, m at level 100, k at level 200).

(** What standard output does with a write, in a given world: [Some e]
    when the write raises [e], [None] when it takes the text. *)
Definition Console : Type := World → string → option exn.

Definition accepting : Console := λ _ _, None.

(** [print(s, end=e)] *)
Definition print_end_on (console : Console) (s e : string) : M () :=
  λ w, match console w (s +:+ e) with
       | Some err => (inl err, w)
       | None =>
           (inr (), {| sys := sys w; sent := sent w; stdout := stdout w ++ [s +:+ e] |})
       end.
Definition print_on (console : Console) (s : string) : M () :=
  print_end_on console s nl.

Definition download_js_try_on (console : Console) (url output_dir : string)
    (custom_headers : option (gmap string string)) : M (bool * string) :=
  io (dir_path, filename) <-
    lift (create_directory_structure check_bracketed_netloc url output_dir);
  io _ <- makedirs dir_path;
  let filepath := os_path_join dir_path [filename] in
  io found <- exists_ filepath;
  if found then
    io _ <- print_on console ("[SKIP] Already exists: " +:+ filepath);
    io_ret (true, url)
  else
    let headers := request_headers custom_headers in
    io response <- get url headers;
    io _ <- raise_for_status response;
    io _ <- write_file filepath (text response);
    io relative_path <- relpath filepath output_dir;
    io _ <- print_on console ("[SUCCESS] " +:+ url +:+ " -> " +:+ relative_path);
    io_ret (true, url).

Definition download_js_on (console : Console) (url output_dir : string)
    (custom_headers : option (gmap string string)) : M (bool * string) :=
  try_except (download_js_try_on console url output_dir custom_headers)
    [ (Timeout, λ _,
         io _ <- print_on console ("[TIMEOUT] " +:+ url);
         io_ret (false, url));
      (RequestException, λ e,
         io _ <- print_on console ("[ERROR] " +:+ url +:+ ": " +:+ exn_str e);
         io_ret (false, url));
      (Exception, λ e,
         io _ <- print_on console
                   ("[ERROR] " +:+ url +:+ ": Unexpected error: " +:+ exn_str e);
         io_ret (false, url)) ].

(** lines 238-241 *)
Definition remove_duplicates_on (console : Console) (urls : list string)
  : M (list string) :=
  let unique_urls := set_order urls in
  if length unique_urls <? length urls then
    io _ <- print_on console ("Removed " +:+ pretty (length urls - length unique_urls)
                              +:+ " duplicate URLs");
    io_ret unique_urls
  else io_ret urls.

(** [ThreadPoolExecutor(max_workers=args.threads)], line 248 *)
Definition thread_pool (max_workers : Z) : M () :=
  if (max_workers <=? 0)%Z
  then io_raise (ValueError "max_workers must be greater than 0")
  else io_ret ().

(** One turn of the loop, lines 251-261: [future.result()] returns the
    pair of the worker or raises what the worker raised. *)
Definition collect_one_on (console : Console) (total_urls : nat) (output_dir : string)
    (custom_headers : gmap string string) (t : Tally) (url : string) : M Tally :=
  io (success, url) <- download_js_on console url output_dir (Some custom_headers);
  let t :=
    if success : bool then
      {| successful := successful t + 1; failed := failed t;
         failed_urls := failed_urls t; outcomes := outcomes t ++ [(success, url)] |}
    else
      {| successful := successful t; failed := failed t + 1;
         failed_urls := failed_urls t ++ [url];
         outcomes := outcomes t ++ [(success, url)] |} in
  let total := successful t + failed t in
  io _ <- print_end_on console
            ("Progress: " +:+ pretty total +:+ "/" +:+ pretty total_urls
             +:+ " (Success: " +:+ pretty (successful t)
             +:+ ", Failed: " +:+ pretty (failed t) +:+ ")") cr;
  io_ret t.

(** Leaving the [with] block of line 248 shuts the pool down, which waits
    for the workers that have not run yet: they run, and what they return
    or raise stays in their futures, unread. *)
Fixpoint shutdown_on (console : Console) (output_dir : string)
    (custom_headers : gmap string string) (futures : list string) (w : World) : World :=
  match futures with
  | [] => w
  | url :: rest =>
      shutdown_on console output_dir custom_headers rest
        (download_js_on console url output_dir (Some custom_headers) w).2
  end.

(** The loop over [as_completed(futures)]; an exception leaves the loop
    and the [with] block. *)
Fixpoint collect_on (console : Console) (total_urls : nat) (output_dir : string)
    (custom_headers : gmap string string) (t : Tally) (futures : list string)
  : M Tally :=
  match futures with
  | [] => io_ret t
  | url :: rest =>
      λ w, match collect_one_on console total_urls output_dir custom_headers t url w with
           | (inr t, w') =>
               collect_on console total_urls output_dir custom_headers t rest w'
           | (inl e, w') =>
               (inl e, shutdown_on console output_dir custom_headers rest w')
           end
  end.

(** Lines 237-261, with [threads] for [args.threads]. *)
Definition run_downloads_on (console : Console) (threads : Z) (urls : list string)
    (output_dir : string) (custom_headers : gmap string string) : M Tally :=
  io urls <- remove_duplicates_on console urls;
  io _ <- thread_pool threads;
  collect_on console (length urls) output_dir custom_headers
    {| successful := 0; failed := 0; failed_urls := []; outcomes := [] |}
    (completion_order urls).

End Console.

(** ** A small runtime, for running the program on concrete inputs *)

Module Demo.

(** Files with their text and the directories created so far; paths are
    compared as they are written. *)
Record state := { files : gmap string string; dirs : gset string }.

Definition OSError (msg : string) : exn := Raise Exception msg.

(** [os.makedirs('')] raises [FileNotFoundError]. *)
Definition demo_makedirs (p : string) (s : state) : result () * state :=
  if bool_decide (p = "")
  then (inl (OSError "[Errno 2] No such file or directory: ''"), s)
  else (inr (), {| files := files s; dirs := {[p]} ∪ dirs s |}).

Definition demo_exists (p : string) (s : state) : bool :=
  bool_decide (is_Some (files s !! p)) || bool_decide (p ∈ dirs s).

Definition demo_write (p t : string) (s : state) : result () * state :=
  (inr (), {| files := <[p := t]> (files s); dirs := dirs s |}).

Definition demo_relpath (p start : string) (s : state) : string :=
  if Str.startswith (start +:+ "/") p
  then Str.slice_from (String.length start + 1) p
  else p.

(** Three hosts fail, each in its own way; one path is missing; everything
    else is served. *)
Definition demo_get (url : string) (headers : gmap string string) (s : state)
  : result Response * state :=
  if String.eqb url "https://slow.example/app.js"
  then (inl (Raise Timeout "Read timed out. (read timeout=30)"), s)
  else if String.eqb url "https://down.example/app.js"
  then (inl (Raise RequestException "Connection refused"), s)
  else if String.eqb url "https://odd.example/app.js"
  then (inl (Raise Exception "unexpected"), s)
  else if String.eqb url "https://example.com/missing.js"
  then (inr {| http_error := Some "404 Client Error: Not Found";
               text := "" |}, s)
  else (inr {| http_error := None; text := "console.log(1);" |}, s).

Definition runtime : Runtime := {|
  check_bracketed_netloc := accept_bracketed;
  Sys := state;
  os_makedirs := demo_makedirs;
  os_path_exists := demo_exists;
  write_text := demo_write;
  os_path_relpath := demo_relpath;
  requests_get := demo_get;
  set_order := remove_dups;
  completion_order := reverse
|}.

Definition empty_state : state := {| files := ∅; dirs := ∅ |}.

Definition world (s : state) : World (R := runtime) :=
  @Build_World runtime s [] [].


(** a standard output whose reader has gone: every write raises
    [BrokenPipeError] *)
Definition closed_stdout : Console (R := runtime) :=
  λ _ _, Some (OSError "[Errno 32] Broken pipe").

Definition UnicodeEncodeError (msg : string) : exn := Raise Exception msg.

(** a standard output with the encoding [ascii]: a write with a character
    past code point 127 raises [UnicodeEncodeError] *)
Definition ascii_stdout : Console (R := runtime) :=
  λ _ chunk,
    if Str.all Str.is_ascii chunk then None
    else Some (UnicodeEncodeError "'ascii' codec can't encode character").

End Demo.

(** ** Text files *)

(** Reading in text mode with universal newlines: a carriage return, with
    the line feed after it if there is one, is read as one line feed. *)
Fixpoint translate_newlines (s : string) : string :=
  match s with
  | EmptyString => EmptyString
  | String c s' =>
      if Ascii.eqb c "013" then
        String "010"
          match s' with
          | String d s'' =>
              if Ascii.eqb d "010" then translate_newlines s''
              else translate_newlines s'
          | EmptyString => EmptyString
          end
      else String c (translate_newlines s')
  end.

(** [for line in f]: the lines of the text, each with its line feed, the
    last one without when the text does not end in one *)
Fixpoint lines_of (s : string) : list string :=
  match s with
  | EmptyString => []
  | String c s' =>
      if Ascii.eqb c "010" then String c EmptyString :: lines_of s'
      else match lines_of s' with
           | [] => [String c EmptyString]
           | line :: rest => String c line :: rest
           end
  end.

(** the lines of a file opened with [open(name, 'r')] *)
Definition file_lines (content : string) : list string :=
  lines_of (translate_newlines content).

(** ** Reading the URL list and writing the failed URLs ([main]) *)

(** Line 223: [[line.strip() for line in f if line.strip()]] *)
Definition read_urls (content : string) : list string :=
  Str.strip Str.is_space
  <$> List.filter (λ line, negb (String.eqb (Str.strip Str.is_space line) ""))
        (file_lines content).

(** Lines 266-269: the text written to failed_urls.txt, [None] when the
    file is not written. *)
Definition failed_urls_file (failed_urls : list string) : option string :=
  match failed_urls with
  | [] => None
  | _ => Some (foldl (λ text url, text +:+ (url +:+ String "010" "")) "" failed_urls)
  end.

(** ** The other header parsers *)

(** [re.split(r'[...]', s)] with a character-class pattern *)
Fixpoint re_split_class (cls : ascii → bool) (s : string) : list string :=
  match s with
  | EmptyString => [EmptyString]
  | String a s' =>
      if cls a then EmptyString :: re_split_class cls s'
      else match re_split_class cls s' with
           | seg :: rest => String a seg :: rest
           | [] => [String a EmptyString]
           end
  end.

(** the class of the pattern of [parse_headers]: semicolon and comma *)
Definition is_pair_separator (c : ascii) : bool :=
  existsb (Ascii.eqb c) [";"; ","]%char.

(** Lines 120-123, one turn of the loop of [parse_headers] *)
Definition parse_header_pair (headers : gmap string string) (pair : string)
  : gmap string string :=
  let pair := Str.strip Str.is_space pair in
  match Str.split_once ":" pair with
  | Some (key, value) =>
      <[Str.strip Str.is_space key := Str.strip Str.is_space value]> headers
  | None => headers
  end.

Definition parse_headers (header_str : string) : gmap string string :=
  let headers : gmap string string := ∅ in
  if String.eqb header_str "" then headers
  else foldl parse_header_pair headers (re_split_class is_pair_separator header_str).

(** Lines 139-142, one turn of the loop over the lines of a header file
    that is not JSON *)
Definition header_file_line (headers : gmap string string) (line : string)
  : gmap string string :=
  let line := Str.strip Str.is_space line in
  if negb (String.eqb line "") && Str.contains ":" line then
    match Str.split_once ":" line with
    | Some (key, value) =>
        <[Str.strip Str.is_space key := Str.strip Str.is_space value]> headers
    | None => headers
    end
  else headers.

(** [load_headers_from_file]. [file] is the text of the file, [None] when
    it does not exist. [json_load] is [json.load]: the value it returns, of
    whatever shape, or [None] for [JSONDecodeError]; [of_dict] is a
    dictionary as such a value. The result comes with what is printed. *)
Definition load_headers_from_file {J : Type} (json_load : string → option J)
    (of_dict : gmap string string → J) (filename : string) (file : option string)
  : J * list string :=
  let headers : gmap string string := ∅ in
  match file with
  | Some content =>
      match json_load content with
      | Some value => (value, [])
      | None => (of_dict (foldl header_file_line headers (file_lines content)), [])
      end
  | None =>
      (of_dict headers,
       [("Warning: Header file '" +:+ filename +:+ "' not found") +:+ String "010" ""])
  end.

(** ** Showing the headers ([main], lines 211-217) *)

Definition sensitive_words : list string := ["authorization"; "token"; "key"; "secret"].

(** [any(sensitive in key.lower() for sensitive in [...])] *)
Definition is_sensitive (key : string) : bool :=
  existsb (λ sensitive, Str.contains_str sensitive (Str.lower_latin1 key))
    sensitive_words.

(** [value[:5] + '*' * (len(value) - 5) if len(value) > 5 else '*' * len(value)] *)
Definition masked_value (value : string) : string :=
  if 5 <? String.length value
  then Str.slice_to 5 value +:+ Str.repeat "*" (String.length value - 5)
  else Str.repeat "*" (String.length value).

(** the line printed for one header *)
Definition header_line (key value : string) : string :=
  if is_sensitive key
  then "  " +:+ key +:+ ": " +:+ masked_value value
  else "  " +:+ key +:+ ": " +:+ value.

(** ** Vocabulary of the statements *)

(** a name is clean when none of the seven characters is in it *)
Definition free_of_forbidden (s : string) : Prop :=
  ∀ c, c ∈ forbidden_chars → Str.contains c s = false.

(** the segments [os.path.join] receives after the base directory *)
Definition dir_segments (parsed_url : ParseResult) : list string :=
  sanitize_filename <$> (file_and_dirs parsed_url).2.

(** The five statuses of the specification, read off a run of the worker:
    a run that raises is classified by the class of the exception, [Timeout]
    for a timeout of the request, [NetworkError] for any other exception of
    the requests library, [OtherError] for anything else; a run that
    returns is [Skipped] when it sent no request and [Success] when it did. *)
Module Outcome.
End Outcome.




(** the query as [urlparse] reads it off the text after the question
    mark: tabs, carriage returns and line feeds are dropped from a URL
    before it is split *)
Definition query_read (q : string) : string := Str.remove is_unsafe_url_byte q.


(** a parse result as texts *)
Definition parse_result_text (parsed_url : ParseResult) : Unicode.ParseResult :=
  {| Unicode.scheme := Unicode.of_string (scheme parsed_url);
     Unicode.netloc := Unicode.of_string (netloc parsed_url);
     Unicode.path := Unicode.of_string (path parsed_url);
     Unicode.params := Unicode.of_string (params parsed_url);
     Unicode.query := Unicode.of_string (query parsed_url);
     Unicode.fragment := Unicode.of_string (fragment parsed_url) |}.

(** an exception as class and text *)
Definition error_text (e : exn) : Unicode.error := (exn_cls e, Unicode.of_string (exn_str e)).

(** the URLs that go to the pool (lines 238-241): the elements of the set
    when the list has duplicates, else the list itself *)
Definition distinct_urls {R : Runtime} (urls : list string) : list string :=
  if length (set_order urls) <? length urls then set_order urls else urls.

(** the line the [except] clause that handles [e] prints (lines 100-108) *)
Definition except_line (url : string) (e : exn) : string :=
  match exn_cls e with
  | Timeout => "[TIMEOUT] " +:+ url
  | RequestException => "[ERROR] " +:+ url +:+ ": " +:+ exn_str e
  | Exception => "[ERROR] " +:+ url +:+ ": Unexpected error: " +:+ exn_str e
  end.

(** a URL as the list reader gives it: not empty, without white space at
    either end, without line break *)
Definition clean_url (u : string) : Prop :=
  u ≠ "" ∧ Str.strip Str.is_space u = u
  ∧ Str.contains "010" u = false ∧ Str.contains "013" u = false.

(** What the re-run statement takes for granted about writing: a file
    that was written exists. *)
Class FileWriteLaws (R : Runtime) : Prop := {
  write_text_exists p t s :
    (write_text p t s).1 = inr () → os_path_exists p (write_text p t s).2 = true
}.

(** * Properties *)

(** ** Strings *)

Section StrFacts.

Implicit Types (s t : string) (c : ascii) (p : ascii → bool).

Lemma str_app_nil_l s : "" +:+ s = s.
Proof. reflexivity. Qed.

Lemma str_app_cons c s t : String c s +:+ t = String c (s +:+ t).
Proof. reflexivity. Qed.

Lemma str_app_nil_r s : s +:+ "" = s.
Proof. induction s as [|c s IH]; [done|]. by rewrite str_app_cons, IH. Qed.

Lemma str_app_assoc s t u : (s +:+ t) +:+ u = s +:+ (t +:+ u).
Proof. induction s as [|c s IH]; [done|]. by rewrite !str_app_cons, IH. Qed.

Lemma str_app_length s t : String.length (s +:+ t) = String.length s + String.length t.
Proof. induction s as [|c s IH]; [done|]. rewrite str_app_cons. simpl. by rewrite IH. Qed.

Lemma str_app_inv_head s t u : s +:+ t = s +:+ u → t = u.
Proof. induction s as [|c s IH]; [done|]. rewrite !str_app_cons. intros [= H]. auto. Qed.

Lemma str_app_inv_tail s t u : s +:+ u = t +:+ u → s = t.
Proof.
  revert t. induction s as [|c s IH]; intros [|d t] H; try done.
  - apply (f_equal String.length) in H. rewrite !str_app_length in H. simpl in H. lia.
  - apply (f_equal String.length) in H. rewrite !str_app_length in H. simpl in H. lia.
  - rewrite !str_app_cons in H. injection H as -> H. f_equal. auto.
Qed.

Lemma slice_split n s : s = Str.slice_to n s +:+ Str.slice_from n s.
Proof.
  revert s. induction n as [|n IH]; intros s; [done|].
  destruct s as [|a s]; [done|]. simpl. rewrite str_app_cons. f_equal. apply IH.
Qed.

Lemma slice_to_length n s : String.length (Str.slice_to n s) = n `min` String.length s.
Proof.
  revert s. induction n as [|n IH]; intros [|a s]; simpl; try done. by rewrite IH.
Qed.

Lemma contains_app c s t : Str.contains c (s +:+ t) = Str.contains c s || Str.contains c t.
Proof.
  induction s as [|a s IH]; [done|]. rewrite str_app_cons. simpl.
  destruct (Ascii.eqb a c); [done|]. apply IH.
Qed.

Lemma contains_slice_to c n s :
  Str.contains c (Str.slice_to n s) = true → Str.contains c s = true.
Proof.
  revert s. induction n as [|n IH]; intros [|a s]; simpl; try done.
  destruct (Ascii.eqb a c); [done|]. apply IH.
Qed.

Lemma contains_slice_from c n s :
  Str.contains c (Str.slice_from n s) = true → Str.contains c s = true.
Proof.
  revert s. induction n as [|n IH]; intros [|a s]; simpl; try done.
  intros H. destruct (Ascii.eqb a c); [done|]. by apply IH.
Qed.

Lemma contains_slice c i j s :
  Str.contains c (Str.slice i j s) = true → Str.contains c s = true.
Proof. unfold Str.slice. intros H. eapply contains_slice_from, contains_slice_to, H. Qed.

Lemma contains_lstrip c p s :
  Str.contains c (Str.lstrip p s) = true → Str.contains c s = true.
Proof.
  induction s as [|a s IH]; [done|]. simpl. destruct (p a); [|done].
  intros H. destruct (Ascii.eqb a c); [done|]. by apply IH.
Qed.

Lemma contains_remove c p s :
  Str.contains c (Str.remove p s) = true → Str.contains c s = true.
Proof.
  induction s as [|a s IH]; [done|]. simpl. destruct (p a); simpl.
  - intros H. destruct (Ascii.eqb a c); [done|]. by apply IH.
  - destruct (Ascii.eqb a c); [done|]. apply IH.
Qed.

(** the sanitizer replaces one character by one character *)
Lemma re_sub_class_cons cls r c s :
  re_sub_class cls (String r "") (String c s)
  = String (if cls c then r else c) (re_sub_class cls (String r "") s).
Proof. simpl. by destruct (cls c). Qed.

Lemma re_sub_class_length cls r s :
  String.length (re_sub_class cls (String r "") s) = String.length s.
Proof.
  induction s as [|c s IH]; [done|]. rewrite re_sub_class_cons. simpl. by rewrite IH.
Qed.

Lemma re_sub_class_idem cls r s :
  cls r = false →
  re_sub_class cls (String r "") (re_sub_class cls (String r "") s)
  = re_sub_class cls (String r "") s.
Proof.
  intros Hr. induction s as [|c s IH]; [done|].
  rewrite !re_sub_class_cons, IH. f_equal.
  destruct (cls c) eqn:Hc; [by rewrite Hr | by rewrite Hc].
Qed.

(** after the substitution a character is outside the class or is the
    replacement *)
Lemma re_sub_class_clean cls r s :
  Str.all (λ c, negb (cls c) || Ascii.eqb c r) (re_sub_class cls (String r "") s) = true.
Proof.
  induction s as [|c s IH]; [done|].
  rewrite re_sub_class_cons. simpl. rewrite IH, andb_true_r.
  destruct (cls c) eqn:Hc; [by rewrite Ascii.eqb_refl, orb_true_r | by rewrite Hc].
Qed.

Lemma all_contains p c s :
  Str.all p s = true → p c = false → Str.contains c s = false.
Proof.
  intros Hall Hc. induction s as [|a s IH]; [done|]. simpl in *.
  apply andb_true_iff in Hall as [Ha Hs].
  destruct (Ascii.eqb a c) eqn:Hac; [|by apply IH].
  apply Ascii.eqb_eq in Hac as ->. congruence.
Qed.

Lemma all_slice_to p n s : Str.all p s = true → Str.all p (Str.slice_to n s) = true.
Proof.
  revert s. induction n as [|n IH]; intros [|a s]; simpl; try done.
  intros [-> H]%andb_true_iff. simpl. by apply IH.
Qed.

Lemma all_impl (p q : ascii → bool) s :
  (∀ c, p c = true → q c = true) → Str.all p s = true → Str.all q s = true.
Proof.
  intros Hpq. induction s as [|a s IH]; [done|]. simpl.
  intros [Ha Hs]%andb_true_iff. by rewrite (Hpq _ Ha), IH.
Qed.

End StrFacts.

(** ** The sanitizer *)

Lemma is_forbidden_spec c : is_forbidden c = true ↔ c ∈ forbidden_chars.
Proof.
  unfold is_forbidden. rewrite existsb_exists. setoid_rewrite <-list_elem_of_In.
  split.
  - intros (d & Hd & ->%Ascii.eqb_eq). done.
  - intros H. exists c. by rewrite Ascii.eqb_refl.
Qed.

Lemma free_of_forbidden_all s :
  Str.all (λ c, negb (is_forbidden c)) s = true → free_of_forbidden s.
Proof.
  intros H c Hc. apply (all_contains _ _ _ H).
  apply is_forbidden_spec in Hc. by rewrite Hc.
Qed.

Lemma sanitize_filename_free s : free_of_forbidden (sanitize_filename s).
Proof.
  apply free_of_forbidden_all.
  generalize (re_sub_class_clean is_forbidden "_" s). apply all_impl.
  intros c [Hc|Hc]%orb_true_iff; [done|]. by apply Ascii.eqb_eq in Hc as ->.
Qed.

Lemma alnum_not_forbidden c : is_alnum c = true → is_forbidden c = false.
Proof. destruct c as [[] [] [] [] [] [] [] []]; by vm_compute. Qed.

Lemma query_safe_free q : free_of_forbidden (query_safe q).
Proof.
  apply free_of_forbidden_all. unfold query_safe. apply all_slice_to.
  generalize (re_sub_class_clean (λ c, negb (is_alnum c)) "_" q). apply all_impl.
  intros c [Hc|Hc]%orb_true_iff.
  - rewrite negb_involutive in Hc. by rewrite alnum_not_forbidden.
  - by apply Ascii.eqb_eq in Hc as ->.
Qed.

Lemma free_of_forbidden_app s t :
  free_of_forbidden s → free_of_forbidden t → free_of_forbidden (s +:+ t).
Proof. intros Hs Ht c Hc. by rewrite contains_app, Hs, Ht. Qed.

Lemma os_path_splitext_contains c p b e :
  os_path_splitext p = (b, e) →
  (Str.contains c b = true → Str.contains c p = true) ∧
  (Str.contains c e = true → Str.contains c p = true).
Proof.
  unfold os_path_splitext.
  destruct (Str.rfind "." p) as [d|]; [|by intros [= <- <-]].
  match goal with |- context [if ?x then _ else _] => destruct x end;
    intros [= <- <-]; split; try done.
  - apply contains_slice_to.
  - apply contains_slice_from.
Qed.

Lemma final_file_name_free file_name q : free_of_forbidden (final_file_name file_name q).
Proof.
  unfold final_file_name. pose proof (sanitize_filename_free file_name) as Hf.
  destruct (negb (String.eqb q "")); [|done].
  destruct (os_path_splitext (sanitize_filename file_name)) as [b e] eqn:He.
  assert (free_of_forbidden b ∧ free_of_forbidden e) as [Hb Hext].
  { split; intros c Hc; specialize (Hf c Hc);
      destruct (os_path_splitext_contains c _ _ _ He) as [H1 H2].
    - destruct (Str.contains c b); [|done]. by rewrite H1 in Hf.
    - destruct (Str.contains c e); [|done]. by rewrite H2 in Hf. }
  repeat apply free_of_forbidden_app; try done.
  - intros c Hc. apply is_forbidden_spec in Hc.
    change (Str.contains c "_") with (if Ascii.eqb "_" c then true else false).
    destruct (Ascii.eqb "_" c) eqn:E; [|done].
    apply Ascii.eqb_eq in E as <-. by vm_compute in Hc.
  - apply query_safe_free.
Qed.

Lemma create_directory_structure_parsed chk url base_dir parsed_url :
  urlparse chk url = inr parsed_url →
  create_directory_structure chk url base_dir
  = inr (os_path_join base_dir (dir_segments parsed_url),
         final_file_name (file_and_dirs parsed_url).1 (query parsed_url)).
Proof.
  intros H. unfold create_directory_structure, dir_segments. rewrite H. simpl.
  by destruct (file_and_dirs parsed_url).
Qed.

(** The mapper on the URLs of the specification's examples. *)
Example map_app_js :
  create_directory_structure accept_bracketed "https://example.com/app.js" "./js_files"
  = inr ("./js_files/example.com", "app.js").
Proof. reflexivity. Qed.

Example map_root :
  create_directory_structure accept_bracketed "https://example.com/" "./js_files"
  = inr ("./js_files/example.com", "index.js").
Proof. reflexivity. Qed.

Example map_nested_without_extension :
  create_directory_structure accept_bracketed
    "https://cdn.example.com/assets/v2/loader?x=1#top" "./js_files"
  = inr ("./js_files/cdn.example.com/assets/v2/loader", "index_x_1.js").
Proof. reflexivity. Qed.

Example map_params_are_not_path :
  create_directory_structure accept_bracketed "https://example.com/a/app.js;v=1" "out"
  = inr ("out/example.com/a", "app.js").
Proof. reflexivity. Qed.

(** C10: the sanitizer is idempotent and keeps the length of its input. *)
Theorem sanitize_filename_idempotent_length (s : string) :
  sanitize_filename (sanitize_filename s) = sanitize_filename s
  ∧ String.length (sanitize_filename s) = String.length s.
Proof.
  split.
  - by apply re_sub_class_idem.
  - apply re_sub_class_length.
Qed.

(** C8: for every URL the mapper accepts, the directory is the base
    directory joined with the sanitised directory parts, and none of these
    parts, nor the final file name (query suffix included), holds one of the
    characters less-than, greater-than, colon, double quote, vertical bar,
    question mark, asterisk. *)
Theorem mapped_names_free_of_forbidden chk (url base_dir dir_path file_name : string) :
  create_directory_structure chk url base_dir = inr (dir_path, file_name) →
  ∃ parsed_url,
    urlparse chk url = inr parsed_url
    ∧ dir_path = os_path_join base_dir (dir_segments parsed_url)
    ∧ Forall free_of_forbidden (dir_segments parsed_url)
    ∧ free_of_forbidden file_name.
Proof.
  intros H. destruct (urlparse chk url) as [e|parsed_url] eqn:Hp.
  { unfold create_directory_structure in H. by rewrite Hp in H. }
  exists parsed_url. rewrite (create_directory_structure_parsed _ _ _ _ Hp) in H.
  injection H as <- <-. repeat split.
  - unfold dir_segments. apply Forall_fmap, Forall_forall.
    intros x _. apply sanitize_filename_free.
  - apply final_file_name_free.
Qed.

(** C8, run on a URL with a colon in a path segment and a query. *)
Lemma mapped_names_free_of_forbidden_witness :
  create_directory_structure accept_bracketed
    "https://example.com:8080/a:b/bundle.js?v=123&env=prod" "./js_files"
  = inr ("./js_files/example.com_8080/a_b", "bundle_v_123_env_prod.js")
  ∧ ∃ parsed_url,
      urlparse accept_bracketed
        "https://example.com:8080/a:b/bundle.js?v=123&env=prod" = inr parsed_url
      ∧ "./js_files/example.com_8080/a_b"
        = os_path_join "./js_files" (dir_segments parsed_url)
      ∧ Forall free_of_forbidden (dir_segments parsed_url)
      ∧ free_of_forbidden "bundle_v_123_env_prod.js".
Proof.
  split; [by vm_compute|].
  apply (mapped_names_free_of_forbidden accept_bracketed
           "https://example.com:8080/a:b/bundle.js?v=123&env=prod" "./js_files").
  by vm_compute.
Defined.

(** ** Totality of the mapper *)

Lemma split_scheme_contains c url sch rest :
  split_scheme url = (sch, rest) →
  Str.contains c rest = true → Str.contains c url = true.
Proof.
  unfold split_scheme.
  destruct (Str.find ":" url) as [[|i]|]; destruct url as [|c0 u];
    try (by intros [= <- <-]).
  match goal with |- context [if ?x then _ else _] => destruct x end;
    intros [= <- <-]; [|done].
  exact (contains_slice_from c (S (S i)) (String c0 u)).
Qed.

(** *** The mapper on all of Unicode *)

Section UnicodeMapper.

Variable chk : Unicode.text → option Unicode.text.
Variable nfkc : Unicode.text → Unicode.text.

Lemma _checknetloc_accepts netloc :
  Unicode._checknetloc nfkc netloc = inr () ↔ Unicode.nfkc_delimiter_free nfkc netloc.
Proof.
  unfold Unicode._checknetloc, Unicode.nfkc_delimiter_free.
  change (Unicode.remove
            (λ c, existsb (N.eqb c) (Unicode.code <$> ["@"; ":"; "#"; "?"]%char))
            netloc)
    with (Unicode.remove Unicode.is_netloc_mark netloc).
  change (Unicode.code <$> ["/"; "?"; "#"; "@"; ":"]%char) with Unicode.url_delimiters.
  set (n := Unicode.remove Unicode.is_netloc_mark netloc).
  destruct (Unicode.all Unicode.is_ascii netloc) eqn:Ha.
  { rewrite orb_true_r. by split; [left|]. }
  assert (bool_decide (netloc = []) = false) as ->.
  { apply bool_decide_eq_false. intros ->. done. }
  cbn [orb]. case_bool_decide as Heq; [by split; [right; left|]|].
  destruct (existsb (λ c, Unicode.contains c (nfkc n)) Unicode.url_delimiters) eqn:He.
  - split; [done|]. intros [?|[?|Hfree]]; [done|done|].
    apply existsb_exists in He as (c & Hc & Hin). apply list_elem_of_In in Hc.
    by rewrite (Hfree c Hc) in Hin.
  - split; [|done]. intros _. right. right. intros c Hc.
    destruct (Unicode.contains c (nfkc n)) eqn:E; [|done].
    assert (existsb (λ c, Unicode.contains c (nfkc n)) Unicode.url_delimiters = true)
      as He'.
    { apply existsb_exists. exists c. split; [by apply list_elem_of_In|done]. }
    congruence.
Qed.

Lemma _checknetloc_raises netloc e :
  Unicode._checknetloc nfkc netloc = inl e → ∃ msg, e = Unicode.ValueError msg.
Proof.
  unfold Unicode._checknetloc.
  repeat match goal with |- context [if ?x then _ else _] => destruct x end;
    try done.
  intros [= <-]. by eexists.
Qed.

(** the authority step, on the network location it finds *)
Lemma split_authority_netloc url :
  let netloc :=
    if bool_decide (Unicode.slice_to 2 url = Unicode.of_string "//")
    then (Unicode._splitnetloc url 2).1 else [] in
  match Unicode.split_authority chk url with
  | inr (n, _) =>
      n = netloc
      ∧ Unicode.contains (Unicode.code "[") netloc
        = Unicode.contains (Unicode.code "]") netloc
      ∧ (Unicode.contains (Unicode.code "[") netloc = true → chk netloc = None)
  | inl e =>
      (∃ msg, e = Unicode.ValueError msg)
      ∧ ¬ (Unicode.contains (Unicode.code "[") netloc
           = Unicode.contains (Unicode.code "]") netloc
           ∧ (Unicode.contains (Unicode.code "[") netloc = true → chk netloc = None))
  end.
Proof.
  unfold Unicode.split_authority. case_bool_decide as H2; [|by repeat split].
  destruct (Unicode._splitnetloc url 2) as [n rest]. cbn [fst].
  destruct (Unicode.contains (Unicode.code "[") n) eqn:Ho;
    destruct (Unicode.contains (Unicode.code "]") n) eqn:Hc;
    cbn [andb orb negb].
  - destruct (chk n) as [msg|] eqn:Hchk.
    + split; [by eexists|]. intros [_ H]. by specialize (H eq_refl).
    + done.
  - split; [by eexists|]. by intros [? _].
  - split; [by eexists|]. by intros [? _].
  - done.
Qed.

Lemma urlsplit_netloc url :
  match Unicode.urlsplit chk nfkc url with
  | inr (_, n, _, _, _) =>
      n = Unicode.url_netloc url
      ∧ Unicode.netloc_accepted chk nfkc (Unicode.url_netloc url)
  | inl e =>
      (∃ msg, e = Unicode.ValueError msg)
      ∧ ¬ Unicode.netloc_accepted chk nfkc (Unicode.url_netloc url)
  end.
Proof.
  unfold Unicode.urlsplit, Unicode.url_netloc, Unicode.netloc_accepted.
  set (u := Unicode.remove Unicode.is_unsafe_url_byte
              (Unicode.lstrip Unicode.is_c0_control_or_space url)).
  destruct (Unicode.split_scheme u) as [sch r]. cbn [snd].
  pose proof (split_authority_netloc r) as Ha. cbn zeta in Ha.
  set (netloc := if bool_decide (Unicode.slice_to 2 r = Unicode.of_string "//")
                 then (Unicode._splitnetloc r 2).1 else []) in *.
  destruct (Unicode.split_authority chk r) as [e|[n rest]].
  { destruct Ha as [He Hno]. split; [done|]. intros (H1 & H2 & _). by apply Hno. }
  destruct Ha as (-> & H1 & H2).
  repeat match goal with
         | |- context [match Unicode.split_once ?c ?x with _ => _ end] =>
             destruct (Unicode.split_once c x) as [[? ?]|]
         end;
    (destruct (Unicode._checknetloc nfkc netloc) as [e|[]] eqn:Hck;
     [ split; [by apply _checknetloc_raises in Hck|];
       intros (_ & _ & H3); apply _checknetloc_accepts in H3; congruence
     | split; [done|]; repeat split; try done; by apply _checknetloc_accepts ]).
Qed.

End UnicodeMapper.

(** C3, as the code has it. On every Python string, malformed URLs
    included, the mapper returns a directory path and a file name exactly
    when [urlparse] accepts the network location of the URL, and raises the
    [ValueError] of [urlparse] when it does not. [urlparse] accepts a
    network location that holds both square brackets or neither, whose
    bracketed host passes its check, and that is ASCII or has an NFKC form
    (taken without its [@:#?]) that is unchanged or free of [/?#@:]. Square
    brackets and other characters outside the network location do not
    matter. *)
Theorem create_directory_structure_total_where_urlparse_accepts
    (chk : Unicode.text → option Unicode.text) (nfkc : Unicode.text → Unicode.text)
    (url base_dir : Unicode.text) :
  (Unicode.netloc_accepted chk nfkc (Unicode.url_netloc url)
   ↔ ∃ dir_path file_name,
       Unicode.create_directory_structure chk nfkc url base_dir
       = inr (dir_path, file_name))
  ∧ (¬ Unicode.netloc_accepted chk nfkc (Unicode.url_netloc url)
     ↔ ∃ msg,
         Unicode.create_directory_structure chk nfkc url base_dir
         = inl (Unicode.ValueError msg)).
Proof.
  unfold Unicode.create_directory_structure, Unicode.urlparse.
  pose proof (urlsplit_netloc chk nfkc url) as H.
  destruct (Unicode.urlsplit chk nfkc url) as [e|[[[[sch n] u] q] f]].
  - destruct H as [[msg ->] Hno]. split; split; try done.
    + by intros (? & ? & ?).
    + intros _. by eexists.
  - destruct H as [_ Hyes].
    match goal with |- context [let (_, _) := ?x in _] => destruct x end.
    match goal with |- context [let (_, _) := ?x in _] => destruct x end.
    split; split; try done.
    + intros _. by do 2 eexists.
    + by intros [? ?].
Qed.

(** C3 on URLs of all kinds: text that is no URL, square brackets after
    the network location, a host in Cyrillic, an IPv6 host are mapped; *)
Example mapper_accepts :
  Unicode.create_directory_structure Unicode.accept_bracketed Unicode.no_normalization
    (Unicode.of_string "not a url at all") (Unicode.of_string "./js_files")
  = inr (Unicode.of_string "./js_files/not a url at all", Unicode.of_string "index.js")
  ∧ Unicode.create_directory_structure Unicode.accept_bracketed Unicode.no_normalization
      (Unicode.of_string "http://example.com/a[0]/b.js?k[]=1")
      (Unicode.of_string "./js_files")
    = inr (Unicode.of_string "./js_files/example.com/a[0]",
           Unicode.of_string "b_k___1.js")
  ∧ Unicode.create_directory_structure Unicode.accept_bracketed Unicode.no_normalization
      (Unicode.of_string "http://" ++ [1076; 1086; 1084]%N ++ Unicode.of_string "/a.js")
      (Unicode.of_string "out")
    = inr (Unicode.of_string "out/" ++ [1076; 1086; 1084]%N, Unicode.of_string "a.js")
  ∧ Unicode.create_directory_structure Unicode.accept_bracketed Unicode.no_normalization
      (Unicode.of_string "http://[::1]/a.js") (Unicode.of_string "out")
    = inr (Unicode.of_string "out/[__1]", Unicode.of_string "a.js").
Proof. by vm_compute. Qed.

(** an opening bracket alone, and a host with the account-of sign U+2100,
    whose NFKC form holds a slash, are refused. *)
Example mapper_refuses :
  Unicode.create_directory_structure Unicode.accept_bracketed Unicode.no_normalization
    (Unicode.of_string "http://[") (Unicode.of_string "./js_files")
  = inl (Unicode.ValueError (Unicode.of_string "Invalid IPv6 URL"))
  ∧ Unicode.create_directory_structure Unicode.accept_bracketed
      Unicode.normalize_account_of
      (Unicode.of_string "https://exa" ++ [8448%N] ++ Unicode.of_string "mple.com/a.js")
      (Unicode.of_string "./js_files")
    = inl (Unicode.ValueError
             (Unicode.of_string "netloc 'exa" ++ [8448%N]
              ++ Unicode.of_string
                   "mple.com' contains invalid characters under NFKC normalization")).
Proof. by vm_compute. Qed.

(** C3, as stated, fails: [urlparse] raises [ValueError] on an authority with
    an opening bracket and no closing one, and the mapper with it. *)
Lemma create_directory_structure_raises :
  create_directory_structure accept_bracketed "http://[" "./js_files"
  = inl (ValueError "Invalid IPv6 URL").
Proof. reflexivity. Qed.

(** ** Query variants *)

Lemma os_path_splitext_app p b e : os_path_splitext p = (b, e) → p = b +:+ e.
Proof.
  unfold os_path_splitext.
  destruct (Str.rfind "." p) as [d|]; [|intros [= <- <-]; by rewrite str_app_nil_r].
  match goal with |- context [if ?x then _ else _] => destruct x end;
    intros [= <- <-]; [apply slice_split|by rewrite str_app_nil_r].
Qed.

Lemma query_safe_empty q : query_safe q = "" ↔ q = "".
Proof.
  split; [|by intros ->]. intros H. apply (f_equal String.length) in H.
  unfold query_safe in H. rewrite slice_to_length, re_sub_class_length in H.
  destruct q; [done|]. simpl in H. lia.
Qed.

(** a name with a query suffix is never the name without one *)
Lemma final_file_name_suffix_differs file_name q :
  q ≠ "" → final_file_name file_name q ≠ final_file_name file_name "".
Proof.
  intros Hq. unfold final_file_name. apply String.eqb_neq in Hq. rewrite Hq. simpl.
  destruct (os_path_splitext (sanitize_filename file_name)) as [b e] eqn:He.
  rewrite (os_path_splitext_app _ _ _ He) at 1. intros H.
  apply str_app_inv_head in H. apply (f_equal String.length) in H.
  rewrite !str_app_length in H. simpl in H. lia.
Qed.

Lemma final_file_name_query_inj file_name q1 q2 :
  final_file_name file_name q1 = final_file_name file_name q2
  ↔ query_safe q1 = query_safe q2.
Proof.
  destruct (decide (q1 = "")) as [->|H1]; destruct (decide (q2 = "")) as [->|H2].
  - done.
  - split; intros H.
    + symmetry in H. by apply final_file_name_suffix_differs in H.
    + symmetry in H. change (query_safe "") with "" in H.
      by destruct H2; apply query_safe_empty.
  - split; intros H.
    + by apply final_file_name_suffix_differs in H.
    + change (query_safe "") with "" in H. by destruct H1; apply query_safe_empty.
  - unfold final_file_name.
    apply String.eqb_neq in H1, H2. rewrite H1, H2. simpl.
    destruct (os_path_splitext (sanitize_filename file_name)) as [b e].
    split; [|by intros ->].
    intros H. apply str_app_inv_head, str_app_inv_head in H.
    by apply str_app_inv_tail in H.
Qed.

(** *** A URL with a query parses as the URL without it *)

Section QueryFacts.

Implicit Types (s t q : string) (c : ascii) (p : ascii → bool).

Lemma lstrip_app_stop p s c t :
  p c = false → Str.lstrip p (s +:+ String c t) = Str.lstrip p s +:+ String c t.
Proof.
  intros Hc. induction s as [|a s IH].
  - rewrite !str_app_nil_l. simpl. by rewrite Hc.
  - rewrite str_app_cons. simpl. destruct (p a); [done|]. by rewrite str_app_cons.
Qed.

Lemma remove_app p s t : Str.remove p (s +:+ t) = Str.remove p s +:+ Str.remove p t.
Proof.
  induction s as [|a s IH]; [done|]. rewrite str_app_cons. simpl.
  destruct (p a); [done|]. by rewrite str_app_cons, IH.
Qed.

Lemma remove_none p s : Str.all (λ c, negb (p c)) s = true → Str.remove p s = s.
Proof.
  induction s as [|a s IH]; [done|]. simpl. intros [Ha Hs]%andb_true_iff.
  apply negb_true_iff in Ha. by rewrite Ha, IH.
Qed.

Lemma find_None c s : Str.contains c s = false → Str.find c s = None.
Proof.
  induction s as [|a s IH]; [done|]. simpl. destruct (Ascii.eqb a c); [done|].
  intros H. by rewrite IH.
Qed.

Lemma find_lt c s i : Str.find c s = Some i → i < String.length s.
Proof.
  revert i. induction s as [|a s IH]; [done|]. simpl. intros i.
  destruct (Ascii.eqb a c); [intros [= <-]; lia|].
  destruct (Str.find c s) as [j|]; [|done]. intros [= <-].
  specialize (IH j eq_refl). lia.
Qed.

Lemma find_app c s t :
  Str.find c (s +:+ t)
  = match Str.find c s with
    | Some i => Some i
    | None => (λ k, String.length s + k) <$> Str.find c t
    end.
Proof.
  induction s as [|a s IH].
  { rewrite str_app_nil_l. simpl. by destruct (Str.find c t). }
  rewrite str_app_cons. simpl. destruct (Ascii.eqb a c); [done|]. rewrite IH.
  destruct (Str.find c s); [done|]. by destruct (Str.find c t).
Qed.

Lemma slice_to_app n s t :
  n ≤ String.length s → Str.slice_to n (s +:+ t) = Str.slice_to n s.
Proof.
  revert s. induction n as [|n IH]; intros s H; [done|].
  destruct s as [|a s]; [simpl in H; lia|].
  rewrite str_app_cons. simpl. f_equal. apply IH. simpl in H. lia.
Qed.

Lemma slice_from_app n s t :
  n ≤ String.length s → Str.slice_from n (s +:+ t) = Str.slice_from n s +:+ t.
Proof.
  revert s. induction n as [|n IH]; intros s H; [done|].
  destruct s as [|a s]; [simpl in H; lia|].
  rewrite str_app_cons. simpl. apply IH. simpl in H. lia.
Qed.

Lemma slice_from_length n s :
  String.length (Str.slice_from n s) = String.length s - n.
Proof. revert s. induction n as [|n IH]; intros [|a s]; simpl; try done. Qed.

Lemma all_slice_to_past p n s c t :
  p c = false → String.length s < n →
  Str.all p (Str.slice_to n (s +:+ String c t)) = false.
Proof.
  intros Hc. revert n. induction s as [|a s IH]; intros n Hn.
  - destruct n; [simpl in Hn; lia|]. rewrite str_app_nil_l. simpl. by rewrite Hc.
  - destruct n; [simpl in Hn; lia|]. rewrite str_app_cons. simpl.
    rewrite IH by (simpl in Hn; lia). apply andb_false_r.
Qed.

Lemma split_once_None c s : Str.contains c s = false → Str.split_once c s = None.
Proof.
  induction s as [|a s IH]; [done|]. simpl. destruct (Ascii.eqb a c); [done|].
  intros H. by rewrite IH.
Qed.

Lemma split_once_app c s t :
  Str.contains c s = false → Str.split_once c (s +:+ String c t) = Some (s, t).
Proof.
  induction s as [|a s IH].
  - intros _. rewrite str_app_nil_l. simpl. by rewrite Ascii.eqb_refl.
  - rewrite str_app_cons. simpl. destruct (Ascii.eqb a c); [done|].
    intros H. by rewrite IH.
Qed.

Lemma split_scheme_query s q :
  split_scheme (s +:+ String "?" q)
  = ((split_scheme s).1, (split_scheme s).2 +:+ String "?" q).
Proof.
  unfold split_scheme. rewrite find_app.
  destruct (Str.find ":" s) as [i|] eqn:Hf.
  - pose proof (find_lt _ _ _ Hf) as Hlt.
    destruct i as [|i]; destruct s as [|c0 s']; try done.
    rewrite str_app_cons.
    change (String c0 (s' +:+ String "?" q)) with (String c0 s' +:+ String "?" q).
    rewrite slice_to_app, slice_from_app by lia.
    by destruct (_ && _).
  - change (Str.find ":" (String "?" q)) with (S <$> Str.find ":" q).
    destruct (Str.find ":" q) as [k|]; simpl; [|by destruct s].
    destruct s as [|c0 s'].
    + by rewrite str_app_nil_l.
    + rewrite str_app_cons. simpl String.length.
      change (String c0 (s' +:+ String "?" q)) with (String c0 s' +:+ String "?" q).
      replace (S (String.length s') + S k) with (S (String.length s' + S k)) by lia.
      rewrite (all_slice_to_past is_scheme_char _ (String c0 s') "?" q eq_refl)
        by (simpl; lia).
      by rewrite andb_false_r.
Qed.

Lemma _splitnetloc_query s q :
  2 ≤ String.length s →
  Str.contains "?" s = false →
  Str.contains "#" s = false →
  Str.contains "#" q = false →
  _splitnetloc (s +:+ String "?" q) 2
  = ((_splitnetloc s 2).1, (_splitnetloc s 2).2 +:+ String "?" q).
Proof.
  intros Hlen Hq Hh Hhq. unfold _splitnetloc. cbn [foldl].
  unfold Str.find_from, Str.slice.
  rewrite (slice_from_app 2 s (String "?" q) Hlen).
  assert (∀ c, Str.contains c s = false → Str.find c (Str.slice_from 2 s) = None)
    as Hnone.
  { intros c H. apply find_None.
    destruct (Str.contains c (Str.slice_from 2 s)) eqn:E; [|done].
    apply contains_slice_from in E. congruence. }
  pose proof (slice_from_length 2 s) as Hu.
  set (u := Str.slice_from 2 s) in *.
  rewrite !(find_app _ u), (Hnone _ Hq), (Hnone _ Hh).
  change (Str.find "?" (String "?" q)) with (Some 0).
  change (Str.find "#" (String "?" q)) with (S <$> Str.find "#" q).
  change (Str.find "/" (String "?" q)) with (S <$> Str.find "/" q).
  rewrite (find_None _ _ Hhq), str_app_length.
  cbn [fmap option_fmap option_map fst snd].
  set (ds := match (λ i, 2 + i) <$> Str.find "/" u with
             | Some wdelim => String.length s `min` wdelim
             | None => String.length s
             end).
  assert (2 ≤ ds ≤ String.length s) as Hds.
  { subst ds. destruct (Str.find "/" u) as [i|] eqn:E;
      cbn [fmap option_fmap option_map]; [|lia].
    apply find_lt in E. lia. }
  match goal with |- context [Str.slice_from ?d (s +:+ String "?" q)] =>
    assert (d = ds) as -> end.
  { subst ds. destruct (Str.find "/" u) as [i|] eqn:E;
      cbn [fmap option_fmap option_map].
    - apply find_lt in E. lia.
    - destruct (Str.find "/" q); cbn [fmap option_fmap option_map]; lia. }
  by rewrite slice_to_app, slice_from_app by lia.
Qed.

Lemma slice_to_2_query s q :
  String.eqb (Str.slice_to 2 (s +:+ String "?" q)) "//"
  = String.eqb (Str.slice_to 2 s) "//".
Proof. by destruct s as [|a [|b s']]. Qed.

Lemma slice_to_2_length s :
  String.eqb (Str.slice_to 2 s) "//" = true → 2 ≤ String.length s.
Proof.
  destruct s as [|a [|b s']]; [done| |simpl; lia].
  change (Ascii.eqb a "/" && false = true → 2 ≤ 1). by rewrite andb_false_r.
Qed.

Lemma split_authority_query chk s q :
  Str.contains "?" s = false →
  Str.contains "#" s = false →
  Str.contains "#" q = false →
  split_authority chk (s +:+ String "?" q)
  = match split_authority chk s with
    | inl e => inl e
    | inr (n, rest) => inr (n, rest +:+ String "?" q)
    end.
Proof.
  intros Hq Hh Hhq. unfold split_authority. rewrite slice_to_2_query.
  destruct (String.eqb (Str.slice_to 2 s) "//") eqn:E; [|done].
  rewrite (_splitnetloc_query s q (slice_to_2_length s E) Hq Hh Hhq).
  destruct (_splitnetloc s 2) as [n rest]. cbn [fst snd].
  repeat match goal with
         | |- context [if ?x then _ else _] => destruct x
         | |- context [match chk ?x with _ => _ end] => destruct (chk x)
         end; done.
Qed.

End QueryFacts.

Lemma urlsplit_query chk base q0 :
  Str.contains "?" base = false →
  Str.contains "#" base = false →
  Str.contains "#" q0 = false →
  urlsplit chk (base +:+ "?" +:+ q0)
  = match urlsplit chk base with
    | inl e => inl e
    | inr (sch, n, p, _, _) => inr (sch, n, p, query_read q0, "")
    end.
Proof.
  intros Hq Hh Hhq0. unfold urlsplit.
  change ("?" +:+ q0) with (String "?" q0).
  rewrite (lstrip_app_stop is_c0_control_or_space base "?" q0 eq_refl), remove_app.
  change (Str.remove is_unsafe_url_byte (String "?" q0))
    with (String "?" (query_read q0)).
  assert (Str.contains "#" (query_read q0) = false) as Hhq.
  { destruct (Str.contains "#" (query_read q0)) eqn:E; [|done].
    apply contains_remove in E. congruence. }
  generalize dependent (query_read q0). clear Hhq0 q0. intros q Hhq.
  set (b := Str.remove is_unsafe_url_byte (Str.lstrip is_c0_control_or_space base)).
  assert (∀ c, Str.contains c base = false → Str.contains c b = false) as Hb.
  { intros c H. destruct (Str.contains c b) eqn:E; [|done].
    apply contains_remove, contains_lstrip in E. congruence. }
  rewrite split_scheme_query. destruct (split_scheme b) as [sch r] eqn:Hs. simpl.
  assert (∀ c, Str.contains c base = false → Str.contains c r = false) as Hr.
  { intros c H. destruct (Str.contains c r) eqn:E; [|done].
    apply (split_scheme_contains _ _ _ _ Hs) in E. by rewrite Hb in E. }
  rewrite (split_authority_query chk r q (Hr _ Hq) (Hr _ Hh) Hhq).
  destruct (split_authority chk r) as [e|[n rest]] eqn:Ha; [done|]. simpl.
  assert (∀ c, Str.contains c r = false → Str.contains c rest = false) as Hrest.
  { intros c H. destruct (Str.contains c rest) eqn:E; [|done].
    revert Ha. unfold split_authority.
    destruct (String.eqb (Str.slice_to 2 r) "//").
    - destruct (_splitnetloc r 2) as [n' rest'] eqn:E'.
      unfold _splitnetloc in E'. injection E' as _ <-.
      intros Ha. assert (rest = Str.slice_from
        (foldl (λ delim c0, match Str.find_from c0 2 r with
                            | Some wdelim => delim `min` wdelim
                            | None => delim
                            end) (String.length r) ["/"; "?"; "#"]%char) r) as ->.
      { repeat match type of Ha with
               | context [if ?x then _ else _] => destruct x
               | context [match chk ?x with _ => _ end] => destruct (chk x)
               end; by inversion Ha. }
      apply contains_slice_from in E. congruence.
    - intros [= _ <-]. congruence. }
  rewrite (split_once_None "#" (rest +:+ String "?" q))
    by (by rewrite contains_app; simpl; rewrite Hhq, (Hrest _ (Hr _ Hh))).
  rewrite (split_once_app "?" rest q (Hrest _ (Hr _ Hq))).
  rewrite (split_once_None "#" rest (Hrest _ (Hr _ Hh))).
  by rewrite (split_once_None "?" rest (Hrest _ (Hr _ Hq))).
Qed.

(** the parse of [base?q] is the parse of [base] with the query [q] *)
Lemma urlparse_query chk base q :
  Str.contains "?" base = false →
  Str.contains "#" base = false →
  Str.contains "#" q = false →
  urlparse chk (base +:+ "?" +:+ q)
  = match urlparse chk base with
    | inl e => inl e
    | inr parsed =>
        inr {| scheme := scheme parsed; netloc := netloc parsed;
               path := path parsed; params := params parsed;
               query := query_read q; fragment := "" |}
    end.
Proof.
  intros Hq Hh Hhq. unfold urlparse.
  rewrite (urlsplit_query chk base q Hq Hh Hhq).
  destruct (urlsplit chk base) as [e|[[[[sch n] p] q0] f0]]; [done|]. simpl.
  by destruct (_ && _); [destruct (_splitparams p)|].
Qed.

(** C2, as the code has it: two URLs that are the same text up to the
    question mark, with any two queries after it (no fragment), are both
    refused by [urlparse], or both mapped, to the same directory, and then
    to different file names exactly when the queries still differ once
    [urlparse] has dropped their tabs and line breaks, every character that
    is not an ASCII letter or digit is replaced by an underscore and the
    result is cut to 50 characters; the two bundle.js URLs of the
    specification get different names. *)
Theorem query_variants_distinct_when_safe_queries_differ
    chk (base q1 q2 base_dir : string) :
  Str.contains "?" base = false →
  Str.contains "#" base = false →
  Str.contains "#" q1 = false →
  Str.contains "#" q2 = false →
  match create_directory_structure chk (base +:+ "?" +:+ q1) base_dir,
        create_directory_structure chk (base +:+ "?" +:+ q2) base_dir with
  | inr (dir1, f1), inr (dir2, f2) =>
      dir1 = dir2
      ∧ (f1 ≠ f2 ↔ query_safe (query_read q1) ≠ query_safe (query_read q2))
  | inl e1, inl e2 => e1 = e2
  | _, _ => False
  end
  ∧ (∃ dir_path f1 f2,
      create_directory_structure chk
        "https://example.com/bundle.js?v=123&env=prod" base_dir = inr (dir_path, f1)
      ∧ create_directory_structure chk
        "https://example.com/bundle.js?v=456" base_dir = inr (dir_path, f2)
      ∧ f1 ≠ f2).
Proof.
  intros Hq Hh Hh1 Hh2. split.
  - pose proof (urlparse_query chk base q1 Hq Hh Hh1) as H1.
    pose proof (urlparse_query chk base q2 Hq Hh Hh2) as H2.
    destruct (urlparse chk base) as [e|parsed].
    + unfold create_directory_structure. by rewrite H1, H2.
    + rewrite (create_directory_structure_parsed _ _ _ _ H1),
        (create_directory_structure_parsed _ _ _ _ H2).
      pose proof (final_file_name_query_inj (file_and_dirs parsed).1
                    (query_read q1) (query_read q2)) as Hnames.
      split; [reflexivity|].
      split; intros Hne Heq; apply Hne; by apply Hnames.
  - exists (os_path_join base_dir ["example.com"]),
      "bundle_v_123_env_prod.js", "bundle_v_456.js".
    by repeat split.
Qed.

(** C2 on two queries that differ in a tab only, which [urlparse] drops:
    one file name; and on two version queries: two names. *)
Lemma query_variants_distinct_when_safe_queries_differ_witness :
  match create_directory_structure accept_bracketed
          ("https://cdn.example.com/lib/app.js" +:+ "?" +:+ "ver=1.2") "./js_files",
        create_directory_structure accept_bracketed
          ("https://cdn.example.com/lib/app.js" +:+ "?" +:+ "ver=1.3") "./js_files" with
  | inr (dir1, f1), inr (dir2, f2) =>
      dir1 = dir2
      ∧ (f1 ≠ f2 ↔ query_safe (query_read "ver=1.2") ≠ query_safe (query_read "ver=1.3"))
  | inl e1, inl e2 => e1 = e2
  | _, _ => False
  end.
Proof.
  refine (proj1 (query_variants_distinct_when_safe_queries_differ accept_bracketed
           "https://cdn.example.com/lib/app.js" "ver=1.2" "ver=1.3" "./js_files"
           _ _ _ _)); by vm_compute.
Defined.

(** a tab in the query is dropped before the query is read: the queries
    [a<TAB>b] and [ab] give one file name *)
Example query_tab_is_dropped :
  create_directory_structure accept_bracketed
    ("https://example.com/bundle.js?a" +:+ String "009" "b") "./js_files"
  = inr ("./js_files/example.com", "bundle_ab.js")
  ∧ create_directory_structure accept_bracketed
      "https://example.com/bundle.js?ab" "./js_files"
    = inr ("./js_files/example.com", "bundle_ab.js")
  ∧ query_safe ("a" +:+ String "009" "b") ≠ query_safe "ab"
  ∧ query_safe (query_read ("a" +:+ String "009" "b")) = query_safe (query_read "ab").
Proof. by vm_compute. Qed.

(** C2, as stated, fails: two URLs that differ only in their non-empty
    queries, [v=1] and [v_1], get the same file name. *)
Lemma query_variants_collide :
  create_directory_structure accept_bracketed
    "https://example.com/bundle.js?v=1" "./js_files"
  = inr ("./js_files/example.com", "bundle_v_1.js")
  ∧ create_directory_structure accept_bracketed
    "https://example.com/bundle.js?v_1" "./js_files"
  = inr ("./js_files/example.com", "bundle_v_1.js").
Proof. by vm_compute. Qed.

(** ** Header precedence *)

Lemma request_headers_lookup custom_headers k v :
  custom_headers !! k = Some v →
  request_headers (Some custom_headers) !! k = Some v.
Proof.
  intros H. unfold request_headers. case_bool_decide as He.
  - subst. by rewrite lookup_empty in H.
  - by apply lookup_union_Some_l.
Qed.

(** C1, as the code has it: a key the header file supplies is bound to the
    file's value in the merged mapping and in the headers of every request,
    whatever the command line gave for it; a key the file does not supply
    keeps what the command line gave. *)
Theorem file_headers_override_command_line
    (args_headers : option (list string)) (file_headers : gmap string string)
    (k v : string) :
  file_headers !! k = Some v →
  collect_headers args_headers (Some file_headers) !! k = Some v
  ∧ request_headers (Some (collect_headers args_headers (Some file_headers))) !! k
    = Some v
  ∧ ∀ k', file_headers !! k' = None →
      collect_headers args_headers (Some file_headers) !! k'
      = collect_headers args_headers None !! k'.
Proof.
  intros H.
  assert (collect_headers args_headers (Some file_headers) !! k = Some v) as Hm.
  { unfold collect_headers. by apply lookup_union_Some_l. }
  split; [done|]. split; [by apply request_headers_lookup|].
  intros k' Hk'. unfold collect_headers. by apply lookup_union_r.
Qed.

Lemma file_headers_override_command_line_witness :
  let file_headers : gmap string string := {[ "Authorization" := "Bearer from-file" ]} in
  let args_headers := Some ["Authorization: Bearer from-cli"; "X-Bug-Bounty: hunter123"] in
  collect_headers args_headers (Some file_headers) !! "Authorization"
  = Some "Bearer from-file"
  ∧ request_headers (Some (collect_headers args_headers (Some file_headers)))
    !! "Authorization" = Some "Bearer from-file"
  ∧ ∀ k', file_headers !! k' = None →
      collect_headers args_headers (Some file_headers) !! k'
      = collect_headers args_headers None !! k'.
Proof.
  intros file_headers args_headers.
  apply (file_headers_override_command_line args_headers file_headers
           "Authorization" "Bearer from-file").
  by vm_compute.
Defined.

(** C1, as stated, fails: with [X-Bug-Bounty] on the command line and in
    the file, requests carry the file's value. *)
Lemma command_line_header_is_overridden :
  let args_headers := Some ["X-Bug-Bounty: hunter123"] in
  let file_headers : gmap string string := {[ "X-Bug-Bounty" := "from-file" ]} in
  collect_headers args_headers None !! "X-Bug-Bounty" = Some "hunter123"
  ∧ request_headers (Some (collect_headers args_headers (Some file_headers)))
    !! "X-Bug-Bounty" = Some "from-file".
Proof. by vm_compute. Qed.

(** ** The worker *)

Section Worker.

Context {R : Runtime}.

Implicit Types (w : World) (url output_dir : string)
  (custom_headers : option (gmap string string)).

#[local] Arguments os_path_join : simpl never.
#[local] Arguments request_headers : simpl never.

Ltac run_io :=
  unfold download_js_try, io_bind, io_ret, io_raise, lift, makedirs, exists_,
    write_file, relpath, get, raise_for_status, on_sys, print, print_end; simpl.

Lemma download_js_try_map_raises url output_dir custom_headers w e :
  create_directory_structure check_bracketed_netloc url output_dir = inl e →
  download_js_try url output_dir custom_headers w = (inl e, w).
Proof. intros H. run_io. by rewrite H. Qed.

Lemma download_js_try_makedirs_raises url output_dir custom_headers w d f e s1 :
  create_directory_structure check_bracketed_netloc url output_dir = inr (d, f) →
  os_makedirs d (sys w) = (inl e, s1) →
  download_js_try url output_dir custom_headers w
  = (inl e, {| sys := s1; sent := sent w; stdout := stdout w |}).
Proof. intros H1 H2. run_io. by rewrite H1, H2. Qed.

Lemma download_js_try_skips url output_dir custom_headers w d f s1 :
  create_directory_structure check_bracketed_netloc url output_dir = inr (d, f) →
  os_makedirs d (sys w) = (inr (), s1) →
  os_path_exists (os_path_join d [f]) s1 = true →
  download_js_try url output_dir custom_headers w
  = (inr (true, url),
     {| sys := s1; sent := sent w;
        stdout := stdout w
                  ++ [("[SKIP] Already exists: " +:+ os_path_join d [f]) +:+ nl] |}).
Proof. intros H1 H2 H3. run_io. rewrite H1, H2. simpl. by rewrite H3. Qed.

(** Past the existence check the worker sends exactly one request; it then
    raises and prints nothing, or returns [(True, url)] and prints the
    success line. *)
Lemma download_js_try_fetches url output_dir custom_headers w d f s1 :
  create_directory_structure check_bracketed_netloc url output_dir = inr (d, f) →
  os_makedirs d (sys w) = (inr (), s1) →
  os_path_exists (os_path_join d [f]) s1 = false →
  ∃ r w',
    download_js_try url output_dir custom_headers w = (r, w')
    ∧ sent w' = sent w ++ [(url, request_headers custom_headers)]
    ∧ ((∃ e, r = inl e ∧ stdout w' = stdout w)
       ∨ (r = inr (true, url)
          ∧ ∃ rel, stdout w'
                   = stdout w ++ [("[SUCCESS] " +:+ url +:+ " -> " +:+ rel) +:+ nl])).
Proof.
  intros H1 H2 H3. run_io. rewrite H1, H2. simpl. rewrite H3. simpl.
  destruct (requests_get url (request_headers custom_headers) s1) as [[e|resp] s2];
    simpl.
  { do 2 eexists. split; [done|]. split; [done|]. left. by eexists. }
  destruct (http_error resp) as [msg|]; run_io.
  { do 2 eexists. split; [done|]. split; [done|]. left. by eexists. }
  destruct (write_text (os_path_join d [f]) (text resp) s2) as [[e|[]] s3]; simpl.
  { do 2 eexists. split; [done|]. split; [done|]. left. by eexists. }
  do 2 eexists. split; [done|]. split; [done|]. right. split; [done|]. by eexists.
Qed.

(** The body of the worker, by cases: it raises before any request, or
    skips, or goes on to the request. *)
Lemma download_js_try_cases url output_dir custom_headers w :
  ∃ r w',
    download_js_try url output_dir custom_headers w = (r, w')
    ∧ ((∃ e, r = inl e ∧ stdout w' = stdout w
             ∧ length (sent w') ≤ S (length (sent w)))
       ∨ (r = inr (true, url) ∧ sent w' = sent w
          ∧ ∃ rest, stdout w'
                    = stdout w ++ [("[SKIP] Already exists: " +:+ rest) +:+ nl])
       ∨ (r = inr (true, url) ∧ length (sent w') = S (length (sent w))
          ∧ ∃ rel, stdout w'
                   = stdout w ++ [("[SUCCESS] " +:+ url +:+ " -> " +:+ rel) +:+ nl])).
Proof.
  destruct (create_directory_structure check_bracketed_netloc url output_dir)
    as [e|[d f]] eqn:H1.
  { rewrite (download_js_try_map_raises _ _ _ _ _ H1). do 2 eexists.
    split; [done|]. left. exists e. repeat split; lia. }
  destruct (os_makedirs d (sys w)) as [[e|[]] s1] eqn:H2.
  { rewrite (download_js_try_makedirs_raises _ _ _ _ _ _ _ _ H1 H2). do 2 eexists.
    split; [done|]. left. exists e. simpl. repeat split; lia. }
  destruct (os_path_exists (os_path_join d [f]) s1) eqn:H3.
  { rewrite (download_js_try_skips _ _ _ _ _ _ _ H1 H2 H3). do 2 eexists.
    split; [done|]. right. left. simpl. repeat split. by eexists. }
  destruct (download_js_try_fetches _ _ custom_headers _ _ _ _ H1 H2 H3)
    as (r & w' & -> & Hsent & [(e & -> & Hout)|(-> & Hout)]).
  - do 2 eexists. split; [done|]. left. exists e. rewrite Hsent, length_app. simpl.
    repeat split; [done|lia].
  - do 2 eexists. split; [done|]. right. right. rewrite Hsent, length_app. simpl.
    repeat split; [lia|done].
Qed.

(** What the three [except] clauses make of an exception. *)
Lemma download_js_handles url output_dir custom_headers w e w1 :
  download_js_try url output_dir custom_headers w = (inl e, w1) →
  ∃ line,
    download_js url output_dir custom_headers w
    = (inr (false, url),
       {| sys := sys w1; sent := sent w1; stdout := stdout w1 ++ [line +:+ nl] |})
    ∧ line = match exn_cls e with
             | Timeout => "[TIMEOUT] " +:+ url
             | RequestException => "[ERROR] " +:+ url +:+ ": " +:+ exn_str e
             | Exception =>
                 "[ERROR] " +:+ url +:+ ": Unexpected error: " +:+ exn_str e
             end.
Proof.
  intros H. unfold download_js, try_except. rewrite H.
  destruct e as [[] msg]; eexists; (split; [reflexivity|done]).
Qed.

Lemma download_js_returns url output_dir custom_headers w r w1 :
  download_js_try url output_dir custom_headers w = (inr r, w1) →
  download_js url output_dir custom_headers w = (inr r, w1).
Proof. intros H. unfold download_js, try_except. by rewrite H. Qed.

End Worker.

Lemma prefix_app s t : String.prefix s (s +:+ t) = true.
Proof.
  induction s as [|c s IH]; [by destruct t|].
  rewrite str_app_cons. simpl. by destruct (ascii_dec c c).
Qed.


Section WorkerClaims.

Context {R : Runtime}.

Implicit Types (w : World) (url output_dir : string)
  (custom_headers : option (gmap string string)).

#[local] Arguments os_path_join : simpl never.

(** the worker returns a flag and the URL it was given *)
Lemma download_js_result url output_dir custom_headers w :
  ∃ success w',
    download_js url output_dir custom_headers w = (inr (success, url), w')
    ∧ ∃ rest, stdout w' = stdout w ++ rest.
Proof.
  destruct (download_js_try_cases url output_dir custom_headers w)
    as (r & w1 & Htry & [(e & -> & Hout & _)|[(-> & _ & rest & Hout)|(-> & _ & rest & Hout)]]).
  - destruct (download_js_handles _ _ _ _ _ _ Htry) as (line & -> & _).
    do 2 eexists. split; [done|]. simpl. rewrite Hout. by eexists.
  - rewrite (download_js_returns _ _ _ _ _ _ Htry). do 2 eexists.
    split; [done|]. rewrite Hout. by eexists.
  - rewrite (download_js_returns _ _ _ _ _ _ Htry). do 2 eexists.
    split; [done|]. rewrite Hout. by eexists.
Qed.

Lemma collect_one_result total output_dir headers t url w :
  ∃ (success : bool) w',
    collect_one total output_dir headers t url w
    = (inr {| successful := if success then successful t + 1 else successful t;
              failed := if success then failed t else failed t + 1;
              failed_urls := if success then failed_urls t else failed_urls t ++ [url];
              outcomes := outcomes t ++ [(success, url)] |}, w')
    ∧ ∃ rest, stdout w' = stdout w ++ rest.
Proof.
  destruct (download_js_result url output_dir (Some headers) w)
    as (success & w1 & Hd & rest & Hout).
  exists success. unfold collect_one, io_bind. rewrite Hd.
  unfold print_end, io_ret. simpl.
  destruct success; (eexists; split; [reflexivity|]); simpl;
    rewrite Hout, <-(assoc_L (++)); by eexists.
Qed.

(** The loop over the futures returns, with one outcome per future, in
    their order, each carrying the URL of its future. *)
Lemma collect_result total output_dir headers futures t w :
  ∃ t' w',
    collect total output_dir headers t futures w = (inr t', w')
    ∧ (outcomes t').*2 = (outcomes t).*2 ++ futures
    ∧ successful t' + failed t' = successful t + failed t + length futures
    ∧ ∃ rest, stdout w' = stdout w ++ rest.
Proof.
  revert t w. induction futures as [|url futures IH]; intros t w.
  { exists t, w. simpl. unfold io_ret. rewrite !app_nil_r.
    repeat split; [lia|]. exists []. by rewrite app_nil_r. }
  destruct (collect_one_result total output_dir headers t url w)
    as (success & w1 & H1 & rest1 & Hout1).
  simpl. unfold io_bind. rewrite H1.
  match goal with |- context [collect _ _ _ ?t1 futures w1] =>
    destruct (IH t1 w1) as (t' & w' & -> & Hurls & Hcount & rest & Hout) end.
  exists t', w'. split; [done|]. simpl in *. split; [|split].
  - rewrite Hurls, fmap_app. simpl. by rewrite <-(assoc_L (++)).
  - rewrite Hcount. destruct success; lia.
  - rewrite Hout, Hout1, <-(assoc_L (++)). by eexists.
Qed.

(** on a standard output that takes every write the worker returns, and
    its flag is [False] exactly when the [try] block raised *)
Lemma download_js_flag url output_dir custom_headers w :
  ∃ success w',
    download_js url output_dir custom_headers w = (inr (success, url), w')
    ∧ (success = false
       ↔ ∃ e w1, download_js_try url output_dir custom_headers w = (inl e, w1)).
Proof.
  destruct (download_js_try url output_dir custom_headers w) as [[e|r] w1] eqn:Htry.
  - destruct (download_js_handles _ _ _ _ _ _ Htry) as (line & -> & _).
    do 2 eexists. split; [done|]. split; [by eauto|done].
  - rewrite (download_js_returns _ _ _ _ _ _ Htry).
    destruct (download_js_try_cases url output_dir custom_headers w)
      as (r' & w1' & Htry' & Hcases). rewrite Htry in Htry'.
    injection Htry' as <- <-.
    destruct Hcases as [(e & ? & _)|[(-> & _)|(-> & _)]]; [done| |];
      (do 2 eexists; split; [done|]; split; [done|]; by intros (? & ? & ?)).
Qed.

(** the loop returns, with one outcome for each future, in the order the
    futures complete *)
Lemma run_downloads_returns urls output_dir headers w :
  ∃ t w',
    run_downloads urls output_dir headers w = (inr t, w')
    ∧ (outcomes t).*2 = completion_order (distinct_urls urls)
    ∧ successful t + failed t = length (outcomes t).
Proof.
  unfold run_downloads, io_bind.
  assert (∃ w1, remove_duplicates urls w = (inr (distinct_urls urls), w1)) as (w1 & ->).
  { unfold remove_duplicates, distinct_urls.
    destruct (_ <? _); unfold io_bind, print, print_end, io_ret; simpl; by eexists. }
  match goal with |- context [collect ?n _ _ ?t0 ?fs w1] =>
    destruct (collect_result n output_dir headers fs t0 w1)
      as (t & w' & -> & Hurls & Hcount & _) end.
  exists t, w'. split; [done|]. simpl in *. split; [done|].
  apply (f_equal length) in Hurls. rewrite length_fmap in Hurls. simpl in Hurls. lia.
Qed.

(** *** The worker and the loop on any standard output *)

Lemma download_js_on_accepting url output_dir custom_headers :
  download_js_on accepting url output_dir custom_headers
  = download_js url output_dir custom_headers.
Proof. reflexivity. Qed.

Lemma collect_one_on_accepting total output_dir headers t url :
  collect_one_on accepting total output_dir headers t url
  = collect_one total output_dir headers t url.
Proof. reflexivity. Qed.

Lemma remove_duplicates_on_accepting (urls : list string) :
  remove_duplicates_on accepting urls = remove_duplicates urls.
Proof. reflexivity. Qed.

Lemma collect_on_accepting total output_dir headers futures t w :
  collect_on accepting total output_dir headers t futures w
  = collect total output_dir headers t futures w.
Proof.
  revert t w. induction futures as [|url futures IH]; intros t w; [done|].
  cbn [collect_on collect]. rewrite collect_one_on_accepting. unfold io_bind.
  destruct (collect_one_result total output_dir headers t url w)
    as (success & w1 & -> & _).
  apply IH.
Qed.

Lemma run_downloads_on_accepting (threads : Z) urls output_dir headers w :
  (0 < threads)%Z →
  run_downloads_on accepting threads urls output_dir headers w
  = run_downloads urls output_dir headers w.
Proof.
  intros Hpos. unfold run_downloads_on, run_downloads.
  rewrite remove_duplicates_on_accepting. unfold io_bind.
  destruct (remove_duplicates urls w) as [[e|us] w1]; [done|].
  unfold thread_pool. destruct (Z.leb_spec threads 0) as [?|_]; [lia|].
  unfold io_ret. apply collect_on_accepting.
Qed.

(** what the [try] block returns is [(True, url)] *)
Lemma download_js_try_on_returns console url output_dir custom_headers w r w1 :
  download_js_try_on console url output_dir custom_headers w = (inr r, w1) →
  r = (true, url).
Proof.
  unfold download_js_try_on, io_bind, io_ret, io_raise, lift, makedirs, exists_,
    write_file, relpath, get, raise_for_status, on_sys, print_on, print_end_on.
  intros H.
  repeat match type of H with
         | context [match ?x with _ => _ end] => destruct x; cbn [sys sent stdout] in H
         end; by simplify_eq.
Qed.

(** C7, as the code has it: what the [try] block of the worker raises,
    whether it comes from the mapper, the file system, the request or a
    [print] there, is handled: the line of the matching [except] clause is
    printed and [(False, url)] is returned. The worker raises only when
    that [print] in the [except] clause raises; [future.result()] then
    raises the same in [main], which leaves the loop, and the workers still
    pending run with their results unread. On a standard output that takes
    every write the worker always returns, and with a positive thread count
    the loop returns a tally with one outcome for each future; with a thread
    count of zero or less the pool raises [ValueError] and no worker runs. *)
Theorem download_js_raises_only_from_except_print
    (console : Console) url output_dir custom_headers w :
  match download_js_try_on console url output_dir custom_headers w with
  | (inr r, w1) =>
      r = (true, url)
      ∧ download_js_on console url output_dir custom_headers w = (inr r, w1)
  | (inl e, w1) =>
      match console w1 (except_line url e +:+ nl) with
      | None =>
          download_js_on console url output_dir custom_headers w
          = (inr (false, url),
             {| sys := sys w1; sent := sent w1;
                stdout := stdout w1 ++ [except_line url e +:+ nl] |})
      | Some err =>
          download_js_on console url output_dir custom_headers w = (inl err, w1)
      end
  end
  ∧ (∀ total headers t rest err w',
       download_js_on console url output_dir (Some headers) w = (inl err, w') →
       collect_on console total output_dir headers t (url :: rest) w
       = (inl err, shutdown_on console output_dir headers rest w'))
  ∧ (∃ success w',
       download_js_on accepting url output_dir custom_headers w
       = (inr (success, url), w')
       ∧ (success = false
          ↔ ∃ e w1,
              download_js_try_on accepting url output_dir custom_headers w
              = (inl e, w1)))
  ∧ (∀ (threads : Z) urls headers,
       if (0 <? threads)%Z then
         ∃ t w',
           run_downloads_on accepting threads urls output_dir headers w = (inr t, w')
           ∧ (outcomes t).*2 = completion_order (distinct_urls urls)
           ∧ successful t + failed t = length (outcomes t)
       else
         ∃ w',
           run_downloads_on accepting threads urls output_dir headers w
           = (inl (ValueError "max_workers must be greater than 0"), w')
           ∧ sent w' = sent w).
Proof.
  split; [|split; [|split]].
  - destruct (download_js_try_on console url output_dir custom_headers w)
      as [[e|r] w1] eqn:Htry.
    + unfold download_js_on, try_except. rewrite Htry.
      destruct e as [[] msg]; cbn [dispatch isinstance exn_cls except_line exn_str];
        unfold io_bind, print_on, print_end_on, io_ret;
        by destruct (console w1 _).
    + split; [by apply (download_js_try_on_returns _ _ _ _ _ _ _ Htry)|].
      unfold download_js_on, try_except. by rewrite Htry.
  - intros total headers t rest err w' H. cbn [collect_on].
    unfold collect_one_on, io_bind. by rewrite H.
  - apply download_js_flag.
  - intros threads urls headers. destruct (Z.ltb_spec 0 threads) as [Hpos|Hneg].
    + rewrite (run_downloads_on_accepting _ _ _ _ _ Hpos). apply run_downloads_returns.
    + unfold run_downloads_on, io_bind, thread_pool.
      rewrite remove_duplicates_on_accepting.
      destruct (Z.leb_spec threads 0) as [_|?]; [|lia].
      unfold remove_duplicates. destruct (_ <? _);
        unfold io_bind, print, print_end, io_ret, io_raise; simpl; by eexists.
Qed.

(** C7, as stated, fails. With standard output closed, the worker raises
    [BrokenPipeError] on a URL whose request times out: the [print] of the
    [except] clause raises it. With an ASCII standard output and a URL that
    holds a Latin-1 letter, [print] raises in the [try] block and again in
    the [except] clause; the run of the scheduler over this URL and another
    raises it too, and tallies nothing, though both requests are sent. *)
Lemma download_js_raises_when_print_raises :
  (download_js_on Demo.closed_stdout "https://slow.example/app.js" "./js_files" None
     (Demo.world Demo.empty_state)).1
  = inl (Demo.OSError "[Errno 32] Broken pipe")
  ∧ (download_js_on Demo.ascii_stdout
       ("https://example.com/caf" +:+ String "233" ".js") "./js_files" None
       (Demo.world Demo.empty_state)).1
    = inl (Demo.UnicodeEncodeError "'ascii' codec can't encode character")
  ∧ (run_downloads_on Demo.ascii_stdout 10
       ["https://example.com/app.js"; "https://example.com/caf" +:+ String "233" ".js"]
       "./js_files" ∅ (Demo.world Demo.empty_state)).1
    = inl (Demo.UnicodeEncodeError "'ascii' codec can't encode character")
  ∧ (sent (run_downloads_on Demo.ascii_stdout 10
             ["https://example.com/app.js";
              "https://example.com/caf" +:+ String "233" ".js"]
             "./js_files" ∅ (Demo.world Demo.empty_state)).2).*1
    = ["https://example.com/caf" +:+ String "233" ".js"; "https://example.com/app.js"].
Proof. by vm_compute. Qed.



End WorkerClaims.

(** ** Stripping and splitting a path *)

Section PathFacts.

Implicit Types (s t : string) (c : ascii) (p : ascii → bool).

Lemma rstrip_all p s : Str.all p s = true → Str.rstrip p s = "".
Proof.
  induction s as [|a s IH]; [done|]. simpl.
  intros [Ha Hs]%andb_true_iff. by rewrite (IH Hs), Ha.
Qed.

Lemma rstrip_app_all p s t :
  Str.all p t = true → Str.rstrip p (s +:+ t) = Str.rstrip p s.
Proof.
  intros Ht. induction s as [|a s IH].
  - by rewrite str_app_nil_l, rstrip_all.
  - rewrite str_app_cons. simpl. by rewrite IH.
Qed.

Lemma rstrip_app_nonempty p s t :
  Str.rstrip p t ≠ "" → Str.rstrip p (s +:+ t) = s +:+ Str.rstrip p t.
Proof.
  intros Ht. induction s as [|a s IH]; [done|].
  rewrite !str_app_cons. simpl. rewrite IH.
  destruct (s +:+ Str.rstrip p t) eqn:E; [|done].
  destruct s; [|done]. by rewrite str_app_nil_l in E.
Qed.

(** a string without stripped characters is left as it is *)
Lemma rstrip_none p s :
  Str.all (λ c, negb (p c)) s = true → Str.rstrip p s = s.
Proof.
  induction s as [|a s IH]; [done|]. simpl.
  intros [Ha Hs]%andb_true_iff. rewrite (IH Hs).
  apply negb_true_iff in Ha. rewrite Ha. by destruct s.
Qed.

Lemma lstrip_app_all p s t :
  Str.all p s = true → Str.lstrip p (s +:+ t) = Str.lstrip p t.
Proof.
  induction s as [|a s IH]; [done|]. rewrite str_app_cons. simpl.
  intros [Ha Hs]%andb_true_iff. rewrite Ha. by apply IH.
Qed.

Lemma strip_all p s : Str.all p s = true → Str.strip p s = "".
Proof. intros H. unfold Str.strip. by rewrite rstrip_all. Qed.

Lemma no_sep_all c s :
  Str.contains c s = false → Str.all (λ a, negb (Ascii.eqb a c)) s = true.
Proof.
  induction s as [|a s IH]; [done|]. simpl.
  destruct (Ascii.eqb a c); [done|]. simpl. apply IH.
Qed.

Lemma split_no_sep c s : Str.contains c s = false → Str.split c s = [s].
Proof.
  induction s as [|a s IH]; [done|]. simpl.
  destruct (Ascii.eqb a c); [done|]. intros H. by rewrite (IH H).
Qed.

Lemma split_app_sep c s t :
  Str.contains c s = false →
  Str.split c (s +:+ String c t) = s :: Str.split c t.
Proof.
  induction s as [|a s IH].
  - intros _. rewrite str_app_nil_l. simpl. by rewrite Ascii.eqb_refl.
  - rewrite str_app_cons. simpl.
    destruct (Ascii.eqb a c); [done|]. intros H. by rewrite (IH H).
Qed.

(** splitting undoes joining, when no part holds the separator *)
Lemma split_join c parts :
  parts ≠ [] →
  Forall (λ part, Str.contains c part = false) parts →
  Str.split c (Str.join (String c "") parts) = parts.
Proof.
  intros Hne Hall. induction Hall as [|x parts Hx Hall IH]; [done|].
  destruct parts as [|y parts].
  - by apply split_no_sep.
  - change (Str.join (String c "") (x :: y :: parts))
      with (x +:+ String c (Str.join (String c "") (y :: parts))).
    rewrite (split_app_sep _ _ _ Hx). f_equal. by apply IH.
Qed.

Lemma join_snoc sep init last_part :
  ∃ pre, Str.join sep (init ++ [last_part]) = pre +:+ last_part
         ∧ (init = [] → pre = "").
Proof.
  induction init as [|x init (pre & IH & _)]; [by exists ""|].
  exists (x +:+ sep +:+ pre). split; [|done].
  change (Str.join sep ((x :: init) ++ [last_part]))
    with (Str.join sep (x :: (init ++ [last_part]))).
  destruct (init ++ [last_part]) as [|y l] eqn:E; [by destruct init|].
  change (Str.join sep (x :: y :: l)) with (x +:+ sep +:+ Str.join sep (y :: l)).
  by rewrite IH, !str_app_assoc.
Qed.

Lemma join_cons_head sep x parts :
  ∃ post, Str.join sep (x :: parts) = x +:+ post.
Proof.
  destruct parts as [|y parts].
  - exists "". simpl. by rewrite str_app_nil_r.
  - by exists (sep +:+ Str.join sep (y :: parts)).
Qed.

Lemma lstrip_head p s t :
  s ≠ "" → Str.all (λ c, negb (p c)) s = true → Str.lstrip p (s +:+ t) = s +:+ t.
Proof.
  destruct s as [|a s]; [done|]. intros _ [Ha _]%andb_true_iff.
  rewrite str_app_cons. simpl. apply negb_true_iff in Ha. by rewrite Ha.
Qed.

(** The slashes around a path go, the parts between them stay: stripping
    [lead ++ parts joined by slashes ++ trail] and splitting at the slashes
    gives the parts back. *)
Lemma split_strip_path lead trail init last_part :
  Str.all is_slash lead = true →
  Str.all is_slash trail = true →
  Forall (λ part, Str.contains "/" part = false) (init ++ [last_part]) →
  head (init ++ [last_part]) ≠ Some "" →
  last_part ≠ "" →
  let path := Str.strip is_slash (lead +:+ Str.join "/" (init ++ [last_part]) +:+ trail) in
  path ≠ "" ∧ Str.split "/" path = init ++ [last_part].
Proof.
  intros Hlead Htrail Hparts Hhead Hlast. simpl.
  set (m := Str.join "/" (init ++ [last_part])).
  assert (Str.contains "/" last_part = false) as Hl.
  { apply Forall_app in Hparts as [_ H]. by inversion H. }
  assert (Str.rstrip is_slash m = m ∧ m ≠ "") as [Hr Hm].
  { destruct (join_snoc "/" init last_part) as (pre & Hpre & _). fold m in Hpre.
    assert (Str.rstrip is_slash last_part = last_part) as Hrl.
    { apply rstrip_none. by apply no_sep_all. }
    rewrite Hpre. split.
    - rewrite rstrip_app_nonempty; by rewrite Hrl.
    - intros E. apply (f_equal String.length) in E. rewrite str_app_length in E.
      destruct last_part; [done|]. simpl in E. lia. }
  assert (Str.lstrip is_slash m = m) as Hlm.
  { subst m. destruct (init ++ [last_part]) as [|x l] eqn:E; [by destruct init|].
    destruct (join_cons_head "/" x l) as (post & ->).
    apply lstrip_head.
    - intros ->. by apply Hhead.
    - apply no_sep_all. by inversion Hparts. }
  assert (Str.strip is_slash (lead +:+ m +:+ trail) = m) as ->.
  { unfold Str.strip. rewrite rstrip_app_nonempty; rewrite rstrip_app_all, Hr; try done.
    by rewrite lstrip_app_all. }
  split; [done|]. apply split_join; [by destruct init|done].
Qed.

(** Every string is stripped characters, the stripped string, stripped
    characters. *)
Lemma lstrip_split p s :
  ∃ lead, Str.all p lead = true ∧ s = lead +:+ Str.lstrip p s.
Proof.
  induction s as [|a s (lead & Hl & IH)]; [by exists ""|]. simpl.
  destruct (p a) eqn:Ha; [|by exists ""].
  exists (String a lead). simpl. rewrite Ha, Hl. by rewrite str_app_cons, <-IH.
Qed.

Lemma rstrip_split p s :
  ∃ trail, Str.all p trail = true ∧ s = Str.rstrip p s +:+ trail.
Proof.
  induction s as [|a s (trail & Ht & IH)]; [by exists ""|]. simpl.
  destruct (Str.rstrip p s) as [|b r] eqn:E.
  - rewrite str_app_nil_l in IH. subst trail. destruct (p a) eqn:Ha.
    + exists (String a s). simpl. by rewrite Ha, Ht.
    + by exists s.
  - exists trail. split; [done|]. by rewrite str_app_cons, <-IH.
Qed.

(** what is left after stripping neither starts nor ends with a stripped
    character *)
Lemma lstrip_first p s a t : Str.lstrip p s = String a t → p a = false.
Proof.
  induction s as [|b s IH]; [done|]. simpl.
  destruct (p b) eqn:Hb; [done|]. by intros [= <- _].
Qed.

Lemma rstrip_last p s :
  Str.rstrip p s = "" ∨ ∃ pre a, Str.rstrip p s = pre +:+ String a "" ∧ p a = false.
Proof.
  induction s as [|b s IH]; [by left|]. simpl.
  destruct (Str.rstrip p s) as [|c r] eqn:E.
  - destruct (p b) eqn:Hb; [by left|]. right. by exists "", b.
  - right. destruct IH as [|(pre & a & Hr & Ha)]; [done|].
    exists (String b pre), a. by rewrite str_app_cons, <-Hr.
Qed.

Lemma lstrip_keeps_last p pre a :
  p a = false →
  ∃ pre', Str.lstrip p (pre +:+ String a "") = pre' +:+ String a "".
Proof.
  intros Ha. induction pre as [|b pre IH].
  - exists "". rewrite str_app_nil_l. simpl. by rewrite Ha.
  - rewrite str_app_cons. simpl. destruct (p b); [done|].
    exists (String b pre). by rewrite str_app_cons.
Qed.

Lemma split_nonempty c s : Str.split c s ≠ [].
Proof.
  destruct s as [|a s]; [done|]. simpl.
  destruct (Ascii.eqb a c); [done|]. by destruct (Str.split c s).
Qed.

Lemma split_no_sep_parts c s :
  Forall (λ part, Str.contains c part = false) (Str.split c s).
Proof.
  induction s as [|a s IH]; [by repeat constructor|]. simpl.
  destruct (Ascii.eqb a c) eqn:Hac; [by constructor|].
  destruct (Str.split c s) as [|seg rest]; [by repeat constructor; simpl; rewrite Hac|].
  inversion IH; subst. constructor; [|done]. simpl. by rewrite Hac.
Qed.

(** joining undoes splitting *)
Lemma join_split c s : Str.join (String c "") (Str.split c s) = s.
Proof.
  induction s as [|a s IH]; [done|]. simpl.
  pose proof (split_nonempty c s) as Hne.
  destruct (Ascii.eqb a c) eqn:Hac.
  - apply Ascii.eqb_eq in Hac as ->.
    destruct (Str.split c s) as [|seg rest]; [done|].
    change (Str.join (String c "") ("" :: seg :: rest))
      with ("" +:+ String c "" +:+ Str.join (String c "") (seg :: rest)).
    by rewrite IH.
  - destruct (Str.split c s) as [|seg rest]; [done|].
    destruct rest as [|y rest]; simpl in *; by rewrite <-IH.
Qed.

Lemma split_head c a s : Ascii.eqb a c = false → head (Str.split c (String a s)) ≠ Some "".
Proof. intros H. simpl. rewrite H. by destruct (Str.split c s). Qed.

Lemma split_last c pre a :
  Ascii.eqb a c = false →
  ∃ init last_part,
    Str.split c (pre +:+ String a "") = init ++ [last_part] ∧ last_part ≠ "".
Proof.
  intros Ha. induction pre as [|b pre (init & l & IH & Hl)].
  - exists [], (String a ""). rewrite str_app_nil_l. simpl. by rewrite Ha.
  - rewrite str_app_cons. simpl. rewrite IH. destruct (Ascii.eqb b c).
    + by exists ("" :: init), l.
    + destruct init as [|x init]; simpl.
      * by exists [], (String b l).
      * by exists (String b x :: init), l.
Qed.

(** Every path that is not slashes only is leading slashes, parts joined by
    slashes, trailing slashes, with a first and a last part that are not
    empty. *)
Lemma path_decomposition s :
  Str.all is_slash s = false →
  ∃ lead trail init last_part,
    Str.all is_slash lead = true
    ∧ Str.all is_slash trail = true
    ∧ Forall (λ part, Str.contains "/" part = false) (init ++ [last_part])
    ∧ head (init ++ [last_part]) ≠ Some ""
    ∧ last_part ≠ ""
    ∧ s = lead +:+ Str.join "/" (init ++ [last_part]) +:+ trail.
Proof.
  intros Hs.
  destruct (rstrip_split is_slash s) as (trail & Htrail & Hs1).
  destruct (lstrip_split is_slash (Str.rstrip is_slash s)) as (lead & Hlead & Hs2).
  set (m := Str.lstrip is_slash (Str.rstrip is_slash s)) in *.
  assert (s = lead +:+ m +:+ trail) as Hdec.
  { rewrite Hs1 at 1. rewrite Hs2 at 1. by rewrite str_app_assoc. }
  destruct (rstrip_last is_slash s) as [E|(pre & a & E & Ha)].
  { rewrite E, str_app_nil_l in Hs1. subst trail. congruence. }
  destruct (lstrip_keeps_last is_slash pre a Ha) as (pre' & Hm).
  rewrite <-E in Hm. fold m in Hm.
  destruct (split_last "/" pre' a Ha) as (init & last_part & Hsplit & Hl).
  rewrite <-Hm in Hsplit.
  exists lead, trail, init, last_part. repeat split; try done.
  - rewrite <-Hsplit. apply split_no_sep_parts.
  - rewrite <-Hsplit. destruct m as [|b m'] eqn:Em.
    { by destruct pre'. }
    apply split_head. by apply (lstrip_first is_slash (Str.rstrip is_slash s) b m').
  - by rewrite <-Hsplit, join_split.
Qed.

End PathFacts.

(** C9: the file name and the directory parts after line 45, before
    sanitising and before the query suffix, which [create_directory_structure]
    then applies to them. With a path of slashes only (the empty path
    included) the file is index.js under the host alone. Every other path is
    leading slashes, parts joined by slashes, trailing slashes; for each such
    reading of it: if the last part ends with .js it is the file name as it
    stands and the host with the parts before it are the directories; if
    not, the file is index.js and the host with all the parts are the
    directories. *)
Theorem file_name_and_directory_parts chk (url base_dir : string)
    (parsed_url : ParseResult) :
  urlparse chk url = inr parsed_url →
  create_directory_structure chk url base_dir
  = inr (os_path_join base_dir (sanitize_filename <$> (file_and_dirs parsed_url).2),
         final_file_name (file_and_dirs parsed_url).1 (query parsed_url))
  ∧ (Str.all is_slash (path parsed_url) = true →
     file_and_dirs parsed_url = ("index.js", [netloc parsed_url]))
  ∧ (Str.all is_slash (path parsed_url) = false →
     ∃ lead trail init last_part,
       Str.all is_slash lead = true
       ∧ Str.all is_slash trail = true
       ∧ Forall (λ part, Str.contains "/" part = false) (init ++ [last_part])
       ∧ head (init ++ [last_part]) ≠ Some ""
       ∧ last_part ≠ ""
       ∧ path parsed_url = lead +:+ Str.join "/" (init ++ [last_part]) +:+ trail)
  ∧ (∀ lead trail init last_part,
       Str.all is_slash lead = true →
       Str.all is_slash trail = true →
       Forall (λ part, Str.contains "/" part = false) (init ++ [last_part]) →
       head (init ++ [last_part]) ≠ Some "" →
       last_part ≠ "" →
       path parsed_url = lead +:+ Str.join "/" (init ++ [last_part]) +:+ trail →
       file_and_dirs parsed_url
       = if Str.endswith ".js" last_part
         then (last_part, netloc parsed_url :: init)
         else ("index.js", netloc parsed_url :: init ++ [last_part])).
Proof.
  intros Hp. split; [|split; [|split]].
  - by rewrite (create_directory_structure_parsed _ _ _ _ Hp).
  - intros H. unfold file_and_dirs. by rewrite (strip_all _ _ H).
  - apply path_decomposition.
  - intros lead trail init last_part Hlead Htrail Hparts Hhead Hlast Hpath.
    destruct (split_strip_path lead trail init last_part Hlead Htrail Hparts Hhead Hlast)
      as [Hne Hsplit].
    unfold file_and_dirs. rewrite Hpath.
    apply String.eqb_neq in Hne. rewrite Hne. simpl. rewrite Hsplit.
    by rewrite last_last, removelast_last.
Qed.

Lemma file_name_and_directory_parts_witness :
  let parsed_url :=
    {| scheme := "https"; netloc := "example.com"; path := "/static/js/app.js/";
       params := ""; query := "v=2"; fragment := "" |} in
  file_and_dirs parsed_url = ("app.js", ["example.com"; "static"; "js"])
  ∧ create_directory_structure accept_bracketed
      "https://example.com/static/js/app.js/?v=2" "./js_files"
    = inr ("./js_files/example.com/static/js", "app_v_2.js").
Proof.
  intros parsed_url.
  destruct (file_name_and_directory_parts accept_bracketed
              "https://example.com/static/js/app.js/?v=2" "./js_files" parsed_url)
    as (Hmap & _ & _ & Hparts); [by vm_compute|].
  split.
  - apply (Hparts "/" "/" ["static"; "js"] "app.js"); try by vm_compute.
    repeat constructor.
  - rewrite Hmap. by vm_compute.
Defined.

(** ** The scheduler *)

Section SchedulerClaims.

Context {R : Runtime} `{!SchedulingLaws R}.





End SchedulerClaims.

(** ** The small runtime obeys the laws *)

Lemma demo_file_system_laws : FileSystemLaws Demo.runtime.
Proof.
  split. intros d p s. simpl. unfold Demo.demo_makedirs, Demo.demo_exists.
  destruct (bool_decide (d = "")); simpl; [done|].
  intros [H|H]%orb_true_iff; apply orb_true_iff; [by left|right].
  apply bool_decide_eq_true in H. apply bool_decide_eq_true. set_solver.
Qed.

Lemma demo_scheduling_laws : SchedulingLaws Demo.runtime.
Proof.
  split; simpl.
  - apply NoDup_remove_dups.
  - apply elem_of_remove_dups.
  - apply reverse_Permutation.
Qed.





(** * More of the program *)

(** ** Stripping *)

Section StripFacts.

Implicit Types (s t : string) (c : ascii) (p : ascii → bool).

Lemma lstrip_idem p s : Str.lstrip p (Str.lstrip p s) = Str.lstrip p s.
Proof.
  induction s as [|a s IH]; [done|]. simpl.
  destruct (p a) eqn:Ha; [done|]. simpl. by rewrite Ha.
Qed.

Lemma rstrip_idem p s : Str.rstrip p (Str.rstrip p s) = Str.rstrip p s.
Proof.
  induction s as [|a s IH]; [done|]. simpl.
  destruct (Str.rstrip p s) as [|b r] eqn:E.
  - destruct (p a) eqn:Ha; [done|]. simpl. by rewrite Ha.
  - simpl in *. by rewrite IH.
Qed.

Lemma rstrip_lstrip_comm p s :
  Str.rstrip p (Str.lstrip p s) = Str.lstrip p (Str.rstrip p s).
Proof.
  induction s as [|a s IH]; [done|]. simpl. destruct (p a) eqn:Ha.
  - rewrite IH. destruct (Str.rstrip p s) as [|b r]; [done|]. simpl. by rewrite Ha.
  - simpl. destruct (Str.rstrip p s) as [|b r]; simpl; by rewrite Ha.
Qed.

Lemma strip_idem p s : Str.strip p (Str.strip p s) = Str.strip p s.
Proof.
  unfold Str.strip. by rewrite rstrip_lstrip_comm, lstrip_idem, rstrip_idem.
Qed.

Lemma strip_lstrip p s : Str.strip p (Str.lstrip p s) = Str.strip p s.
Proof. unfold Str.strip. by rewrite rstrip_lstrip_comm, lstrip_idem. Qed.

Lemma strip_rstrip p s : Str.strip p (Str.rstrip p s) = Str.strip p s.
Proof. unfold Str.strip. by rewrite rstrip_idem. Qed.

Lemma contains_rstrip c p s :
  Str.contains c (Str.rstrip p s) = true → Str.contains c s = true.
Proof.
  induction s as [|a s IH]; [done|]. simpl.
  destruct (Str.rstrip p s) as [|b r] eqn:E.
  - destruct (p a); [done|].
    change (Str.contains c (String a "")) with (if Ascii.eqb a c then true else false).
    by destruct (Ascii.eqb a c).
  - change (Str.contains c (String a (String b r)))
      with (if Ascii.eqb a c then true else Str.contains c (String b r)).
    destruct (Ascii.eqb a c); [done|]. apply IH.
Qed.

Lemma contains_strip c p s :
  Str.contains c (Str.strip p s) = true → Str.contains c s = true.
Proof. intros H. by apply contains_lstrip, contains_rstrip in H. Qed.

Lemma rstrip_app_stop p s c t :
  p c = false → Str.rstrip p (s +:+ String c t) = s +:+ String c (Str.rstrip p t).
Proof.
  intros Hc. induction s as [|a s IH].
  - rewrite !str_app_nil_l. simpl. destruct (Str.rstrip p t); by rewrite ?Hc.
  - rewrite !str_app_cons. simpl. rewrite IH. by destruct s.
Qed.

(** stripping a text with a colon strips what is before and what is after *)
Lemma strip_around p s c t :
  p c = false →
  Str.strip p (s +:+ String c t) = Str.lstrip p s +:+ String c (Str.rstrip p t).
Proof.
  intros Hc. unfold Str.strip. by rewrite rstrip_app_stop, lstrip_app_stop.
Qed.

Lemma split_once_inv c s l r :
  Str.split_once c s = Some (l, r) → s = l +:+ String c r ∧ Str.contains c l = false.
Proof.
  revert l. induction s as [|a s IH]; intros l; [done|]. simpl.
  destruct (Ascii.eqb a c) eqn:Hac.
  - intros [= <- <-]. by apply Ascii.eqb_eq in Hac as ->.
  - destruct (Str.split_once c s) as [[l' r']|]; [|done]. intros [= <- <-].
    destruct (IH l' eq_refl) as [-> Hl]. rewrite str_app_cons. split; [done|].
    simpl. by rewrite Hac.
Qed.

Lemma split_once_None_inv c s : Str.split_once c s = None → Str.contains c s = false.
Proof.
  induction s as [|a s IH]; [done|]. simpl. destruct (Ascii.eqb a c); [done|].
  destruct (Str.split_once c s) as [[??]|]; [done|]. auto.
Qed.

End StripFacts.

(** ** The three header parsers agree *)

(** a line of a header file is read as a [-H] argument is *)
Lemma strip_then_split_once (headers : gmap string string) (text : string) :
  match Str.split_once ":" (Str.strip Str.is_space text) with
  | Some (key, value) =>
      <[Str.strip Str.is_space key := Str.strip Str.is_space value]> headers
  | None => headers
  end
  = add_header headers text
  ∧ (Str.contains ":" (Str.strip Str.is_space text) = true
     → Str.strip Str.is_space text ≠ "").
Proof.
  unfold add_header. destruct (Str.split_once ":" text) as [[l r]|] eqn:E.
  - apply split_once_inv in E as [-> Hl].
    rewrite (strip_around Str.is_space l ":" r eq_refl).
    assert (Str.contains ":" (Str.lstrip Str.is_space l) = false) as Hl'.
    { destruct (Str.contains ":" (Str.lstrip Str.is_space l)) eqn:H; [|done].
      apply contains_lstrip in H. congruence. }
    rewrite (split_once_app ":" _ _ Hl'), strip_lstrip, strip_rstrip.
    split; [done|]. intros _ H. apply (f_equal String.length) in H.
    rewrite str_app_length in H. simpl in H. lia.
  - apply split_once_None_inv in E.
    assert (Str.contains ":" (Str.strip Str.is_space text) = false) as H.
    { destruct (Str.contains ":" (Str.strip Str.is_space text)) eqn:H; [|done].
      apply contains_strip in H. congruence. }
    rewrite (split_once_None _ _ H). split; [done|]. by rewrite H.
Qed.

Lemma header_file_line_add_header headers line :
  header_file_line headers line = add_header headers line.
Proof.
  destruct (strip_then_split_once headers line) as [<- Hne]. unfold header_file_line.
  destruct (Str.contains ":" (Str.strip Str.is_space line)) eqn:Hc.
  - specialize (Hne eq_refl). apply String.eqb_neq in Hne. by rewrite Hne.
  - rewrite andb_false_r. by rewrite (split_once_None _ _ Hc).
Qed.

Lemma parse_header_pair_add_header headers pair :
  parse_header_pair headers pair = add_header headers pair.
Proof. by destruct (strip_then_split_once headers pair) as [<- _]. Qed.

Lemma foldl_ext_eq {A B} (f g : A → B → A) (a : A) (l : list B) :
  (∀ a b, f a b = g a b) → foldl f a l = foldl g a l.
Proof. intros H. revert a. induction l as [|b l IH]; intros a; simpl; [done|]. by rewrite H, IH. Qed.

(** X1: a header file that is not JSON gives the mapping that its lines,
    each passed as a [-H] argument, give. *)
Theorem header_file_lines_read_as_arguments {J : Type}
    (json_load : string → option J) (of_dict : gmap string string → J)
    (filename content : string) :
  json_load content = None →
  load_headers_from_file json_load of_dict filename (Some content)
  = (of_dict (collect_headers (Some (file_lines content)) None), []).
Proof.
  intros H. unfold load_headers_from_file, collect_headers. rewrite H.
  do 2 f_equal. apply foldl_ext_eq, header_file_line_add_header.
Qed.

Lemma header_file_lines_read_as_arguments_witness :
  load_headers_from_file (J := gmap string string) (λ _, None) id "headers.txt"
    (Some "X-Bug-Bounty: hunter123
Authorization : Bearer a:b

no colon here")
  = (collect_headers
       (Some ["X-Bug-Bounty: hunter123"; "Authorization : Bearer a:b"; "";
              "no colon here"]) None, []).
Proof.
  rewrite (header_file_lines_read_as_arguments (J := gmap string string)
             (λ _, None) id "headers.txt" _ eq_refl).
  by vm_compute.
Defined.

(** X2: [parse_headers] gives the mapping that the pieces between
    semicolons and commas, each passed as a [-H] argument, give; the empty
    string gives the empty mapping. *)
Theorem parse_headers_as_arguments (header_str : string) :
  parse_headers header_str
  = collect_headers (Some (re_split_class is_pair_separator header_str)) None
  ∧ parse_headers "" = ∅.
Proof.
  split; [|done]. unfold parse_headers, collect_headers.
  destruct (String.eqb_spec header_str "") as [->|_]; [done|].
  apply foldl_ext_eq, parse_header_pair_add_header.
Qed.

Lemma re_split_class_parts cls s :
  Forall (λ part, Str.all (λ c, negb (cls c)) part = true) (re_split_class cls s).
Proof.
  induction s as [|a s IH]; [by repeat constructor|]. simpl.
  destruct (cls a) eqn:Ha; [by constructor|].
  destruct (re_split_class cls s) as [|seg rest]; [by repeat constructor; simpl; rewrite Ha|].
  inversion IH; subst. constructor; [|done]. simpl. by rewrite Ha.
Qed.

(** what [add_header] binds is made of characters of the argument *)
Lemma add_header_chars (Q : ascii → bool) (headers : gmap string string) (text : string) :
  Str.all Q text = true →
  map_Forall (λ k v, Str.all Q k = true ∧ Str.all Q v = true) headers →
  map_Forall (λ k v, Str.all Q k = true ∧ Str.all Q v = true) (add_header headers text).
Proof.
  intros Htext Hm. unfold add_header.
  destruct (Str.split_once ":" text) as [[l r]|] eqn:E; [|done].
  apply split_once_inv in E as [-> _].
  assert (∀ s, Str.all Q s = true → Str.all Q (Str.strip Str.is_space s) = true) as Hstrip.
  { intros s Hs. destruct (Str.all Q (Str.strip Str.is_space s)) eqn:Hn; [done|].
    assert (∃ c, Q c = false ∧ Str.contains c (Str.strip Str.is_space s) = true)
      as (c & Hc & Hin).
    { clear -Hn. induction (Str.strip Str.is_space s) as [|a t IH]; [done|].
      simpl in Hn. destruct (Q a) eqn:Ha.
      - destruct (IH Hn) as (c & Hc & Hin). exists c. split; [done|]. simpl.
        by destruct (Ascii.eqb a c).
      - exists a. split; [done|]. simpl. by rewrite Ascii.eqb_refl. }
    apply contains_strip in Hin. by rewrite (all_contains _ _ _ Hs Hc) in Hin. }
  assert (Str.all Q l = true ∧ Str.all Q r = true) as [Hl Hr].
  { clear -Htext. induction l as [|a l IH].
    - rewrite str_app_nil_l in Htext. simpl in Htext.
      by apply andb_true_iff in Htext as [_ ?].
    - rewrite str_app_cons in Htext. simpl in *.
      apply andb_true_iff in Htext as [-> H]. by apply IH. }
  apply map_Forall_insert_2; auto.
Qed.

(** X3: no key and no value of [parse_headers] holds a semicolon or a
    comma: a header value with a comma in it is cut there. *)
Theorem parse_headers_never_keeps_separators (header_str k v : string) :
  parse_headers header_str !! k = Some v →
  Str.all (λ c, negb (is_pair_separator c)) k = true
  ∧ Str.all (λ c, negb (is_pair_separator c)) v = true.
Proof.
  unfold parse_headers. destruct (String.eqb header_str ""); [by rewrite lookup_empty|].
  rewrite (foldl_ext_eq _ add_header _ _ parse_header_pair_add_header).
  pose proof (re_split_class_parts is_pair_separator header_str) as Hparts.
  assert (∀ (m : gmap string string) l,
    Forall (λ part, Str.all (λ c, negb (is_pair_separator c)) part = true) l →
    map_Forall (λ k v, Str.all (λ c, negb (is_pair_separator c)) k = true
                       ∧ Str.all (λ c, negb (is_pair_separator c)) v = true) m →
    map_Forall (λ k v, Str.all (λ c, negb (is_pair_separator c)) k = true
                       ∧ Str.all (λ c, negb (is_pair_separator c)) v = true)
      (foldl add_header m l)) as Hfold.
  { intros m l Hl. revert m. induction Hl as [|x l Hx Hl IH]; intros m Hm; [done|].
    simpl. by apply IH, add_header_chars. }
  intros Hk. by apply (Hfold ∅ _ Hparts (map_Forall_empty _) k v).
Qed.

Lemma parse_headers_never_keeps_separators_witness :
  parse_headers "Accept: text/html, */*; X-Id : 7" !! "Accept" = Some "text/html"
  ∧ Str.all (λ c, negb (is_pair_separator c)) "Accept" = true
  ∧ Str.all (λ c, negb (is_pair_separator c)) "text/html" = true.
Proof.
  split; [by vm_compute|].
  apply (parse_headers_never_keeps_separators
           "Accept: text/html, */*; X-Id : 7" "Accept" "text/html").
  by vm_compute.
Defined.

(** ** The URL list and the failed URLs *)

Lemma lines_of_shape s :
  Forall (λ line, ∃ body, (line = body ∨ line = body +:+ String "010" "")
                          ∧ Str.contains "010" body = false) (lines_of s).
Proof.
  induction s as [|c s IH]; [constructor|]. simpl.
  destruct (Ascii.eqb c "010") eqn:Hc.
  - apply Ascii.eqb_eq in Hc as ->. constructor; [|done]. exists "". by split; [right|].
  - destruct (lines_of s) as [|line rest].
    + repeat constructor. exists (String c ""). split; [by left|]. simpl. by rewrite Hc.
    + inversion IH as [|?? (body & Hb & Hn) Hrest]; subst. constructor; [|done].
      exists (String c body). split.
      * destruct Hb as [->| ->]; [by left|by right].
      * simpl. by rewrite Hc.
Qed.

Lemma lines_of_contains c s :
  Forall (λ line, Str.contains c line = true → Str.contains c s = true) (lines_of s).
Proof.
  induction s as [|a s IH]; [constructor|]. simpl.
  destruct (Ascii.eqb a "010") eqn:Ha.
  - constructor.
    + simpl. by destruct (Ascii.eqb a c).
    + eapply Forall_impl; [exact IH|]. simpl. intros line H Hl.
      destruct (Ascii.eqb a c); [done|]. auto.
  - destruct (lines_of s) as [|line rest].
    + repeat constructor. simpl. by destruct (Ascii.eqb a c).
    + inversion IH as [|?? Hline Hrest]; subst. constructor.
      * simpl. destruct (Ascii.eqb a c); [done|]. apply Hline.
      * eapply Forall_impl; [exact Hrest|]. simpl. intros l H Hl.
        destruct (Ascii.eqb a c); [done|]. auto.
Qed.

Lemma translate_newlines_no_cr s : Str.contains "013" (translate_newlines s) = false.
Proof.
  assert (∀ n s, String.length s ≤ n → Str.contains "013" (translate_newlines s) = false)
    as H; [|by apply (H (String.length s))].
  clear s. induction n as [|n IH]; intros [|c s] Hlen; try done; [simpl in Hlen; lia|].
  simpl in *. destruct (Ascii.eqb c "013") eqn:Hc.
  - simpl. destruct s as [|d s']; [done|].
    destruct (Ascii.eqb d "010"); apply IH; simpl in *; lia.
  - simpl. rewrite Hc. apply IH. lia.
Qed.

Lemma translate_newlines_id s :
  Str.contains "013" s = false → translate_newlines s = s.
Proof.
  induction s as [|c s IH]; [done|]. simpl.
  destruct (Ascii.eqb c "013"); [done|]. intros H. by rewrite IH.
Qed.

Lemma strip_line_feed s :
  Str.strip Str.is_space (s +:+ String "010" "") = Str.strip Str.is_space s.
Proof. unfold Str.strip. by rewrite rstrip_app_all. Qed.

(** X4: every URL read from the list file is non-empty, has no white space
    at either end and no line break in it. *)
Theorem read_urls_clean (content : string) : Forall clean_url (read_urls content).
Proof.
  unfold read_urls, file_lines. apply Forall_fmap, Forall_forall.
  intros line Hin. apply list_elem_of_In, filter_In in Hin as [Hin Hne].
  apply list_elem_of_In in Hin. apply negb_true_iff, String.eqb_neq in Hne.
  pose proof (lines_of_shape (translate_newlines content)) as Hshape.
  pose proof (lines_of_contains "013" (translate_newlines content)) as Hcr.
  rewrite Forall_forall in Hshape, Hcr.
  destruct (Hshape _ Hin) as (body & Hb & Hn). specialize (Hcr _ Hin).
  simpl. split; [done|]. split; [apply strip_idem|]. split.
  - assert (Str.strip Str.is_space line = Str.strip Str.is_space body) as ->.
    { destruct Hb as [->| ->]; [done|apply strip_line_feed]. }
    destruct (Str.contains "010" (Str.strip Str.is_space body)) eqn:E; [|done].
    apply contains_strip in E. congruence.
  - destruct (Str.contains "013" (Str.strip Str.is_space line)) eqn:E; [|done].
    apply contains_strip, Hcr in E. by rewrite translate_newlines_no_cr in E.
Qed.

Lemma failed_urls_text acc (urls : list string) :
  foldl (λ text url, text +:+ (url +:+ String "010" "")) acc urls
  = acc +:+ foldr (λ url text, url +:+ String "010" text) "" urls.
Proof.
  revert acc. induction urls as [|u urls IH]; intros acc; simpl.
  - by rewrite str_app_nil_r.
  - rewrite IH, str_app_assoc. f_equal.
    rewrite str_app_assoc. by rewrite str_app_cons, str_app_nil_l.
Qed.

Lemma lines_of_line u rest :
  Str.contains "010" u = false →
  lines_of (u +:+ String "010" rest) = (u +:+ String "010" "") :: lines_of rest.
Proof.
  induction u as [|a u IH].
  - intros _. by rewrite !str_app_nil_l.
  - rewrite !str_app_cons. simpl. destruct (Ascii.eqb a "010"); [done|].
    intros H. by rewrite (IH H).
Qed.

Lemma read_back (urls : list string) :
  Forall clean_url urls →
  read_urls (foldr (λ url text, url +:+ String "010" text) "" urls) = urls.
Proof.
  intros Hclean. unfold read_urls, file_lines.
  assert (Str.contains "013" (foldr (λ url text, url +:+ String "010" text) "" urls)
          = false) as Hcr.
  { induction Hclean as [|u urls (_ & _ & _ & Hu) _ IH]; [done|]. simpl.
    rewrite contains_app, Hu. simpl. apply IH. }
  rewrite (translate_newlines_id _ Hcr). clear Hcr.
  induction Hclean as [|u urls (Hne & Hstrip & Hlf & _) _ IH]; [done|]. simpl.
  cbn [foldr]. rewrite (lines_of_line _ _ Hlf). cbn [List.filter].
  rewrite strip_line_feed, Hstrip.
  apply String.eqb_neq in Hne. rewrite Hne. cbn [negb]. rewrite fmap_cons.
  by rewrite strip_line_feed, Hstrip, IH.
Qed.

(** X5: the file of failed URLs is written only when there are failed
    URLs, and then always: with none it is not written, with some it is.
    Read as a URL list, the file gives the failed URLs back, in their
    order. *)
Theorem failed_urls_file_round_trip (failed_urls : list string) :
  Forall clean_url failed_urls →
  match failed_urls_file failed_urls with
  | Some text => failed_urls ≠ [] ∧ read_urls text = failed_urls
  | None => failed_urls = []
  end.
Proof.
  intros Hclean. destruct failed_urls as [|u urls]; [done|].
  unfold failed_urls_file. rewrite failed_urls_text, str_app_nil_l.
  split; [done|]. by apply read_back.
Qed.

Lemma failed_urls_file_round_trip_witness :
  match failed_urls_file ["https://slow.example/app.js"; "https://down.example/a b.js"] with
  | Some text =>
      ["https://slow.example/app.js"; "https://down.example/a b.js"] ≠ []
      ∧ read_urls text = ["https://slow.example/app.js"; "https://down.example/a b.js"]
  | None => ["https://slow.example/app.js"; "https://down.example/a b.js"] = []
  end.
Proof.
  apply (failed_urls_file_round_trip
           ["https://slow.example/app.js"; "https://down.example/a b.js"]).
  repeat constructor; by vm_compute.
Defined.

(** ** Showing header values *)

Lemma repeat_length c n : String.length (Str.repeat c n) = n.
Proof. induction n as [|n IH]; simpl; by rewrite ?IH. Qed.

Lemma repeat_all c n : Str.all (Ascii.eqb c) (Str.repeat c n) = true.
Proof. induction n as [|n IH]; [done|]. simpl. by rewrite Ascii.eqb_refl. Qed.

(** X6: a masked value is as long as the value; past its first five
    characters it is asterisks only, and a value of five characters or
    fewer is asterisks only. *)
Theorem masked_value_hides (value : string) :
  String.length (masked_value value) = String.length value
  ∧ Str.all (Ascii.eqb "*") (Str.slice_from 5 (masked_value value)) = true
  ∧ (String.length value ≤ 5 → Str.all (Ascii.eqb "*") (masked_value value) = true)
  ∧ (5 < String.length value → Str.slice_to 5 (masked_value value) = Str.slice_to 5 value).
Proof.
  unfold masked_value. destruct (5 <? String.length value) eqn:E.
  - apply Nat.ltb_lt in E.
    assert (String.length (Str.slice_to 5 value) = 5) as H5.
    { rewrite slice_to_length. lia. }
    split; [|split; [|split]].
    + rewrite str_app_length, H5, repeat_length. lia.
    + rewrite slice_from_app by lia.
      assert (Str.slice_from 5 (Str.slice_to 5 value) = "") as ->.
      { destruct (Str.slice_from 5 (Str.slice_to 5 value)) eqn:F; [done|].
        apply (f_equal String.length) in F. rewrite slice_from_length, H5 in F.
        simpl in F. lia. }
      rewrite str_app_nil_l. apply repeat_all.
    + lia.
    + intros _. rewrite slice_to_app by lia.
      clear. generalize 5. intros n. revert value.
      induction n as [|n IH]; intros [|a s]; simpl; try done. by rewrite IH.
  - apply Nat.ltb_ge in E. split; [|split; [|split]].
    + apply repeat_length.
    + assert (Str.slice_from 5 (Str.repeat "*" (String.length value)) = "") as ->; [|done].
      destruct (Str.slice_from 5 (Str.repeat "*" (String.length value))) eqn:F; [done|].
      apply (f_equal String.length) in F. rewrite slice_from_length, repeat_length in F.
      simpl in F. lia.
    + intros _. apply repeat_all.
    + lia.
Qed.

Lemma contains_str_app sub a b : Str.contains_str sub (a +:+ sub +:+ b) = true.
Proof.
  assert (∀ s, Str.contains_str sub s
               = String.prefix sub s
                 || match s with
                    | EmptyString => false
                    | String _ s' => Str.contains_str sub s'
                    end) as Hunfold by (by intros []).
  induction a as [|c a IH].
  - by rewrite str_app_nil_l, Hunfold, prefix_app.
  - rewrite str_app_cons, Hunfold, IH. apply orb_true_r.
Qed.

Lemma map_app_str f s t : Str.map f (s +:+ t) = Str.map f s +:+ Str.map f t.
Proof.
  induction s as [|c s IH]; [done|]. rewrite str_app_cons. simpl.
  by rewrite IH, str_app_cons.
Qed.

(** X7: a header whose name holds one of the words authorization,
    token, key, secret, in whatever letter case and wherever in the name, is
    shown with its value masked. *)
Theorem sensitive_header_is_masked (before word after value : string) :
  Str.lower_latin1 word ∈ sensitive_words →
  is_sensitive (before +:+ word +:+ after) = true
  ∧ header_line (before +:+ word +:+ after) value
    = "  " +:+ (before +:+ word +:+ after) +:+ ": " +:+ masked_value value.
Proof.
  intros Hw.
  assert (is_sensitive (before +:+ word +:+ after) = true) as Hs.
  { unfold is_sensitive. apply existsb_exists.
    exists (Str.lower_latin1 word). split; [by apply list_elem_of_In|].
    unfold Str.lower_latin1. rewrite !map_app_str. apply contains_str_app. }
  split; [done|]. unfold header_line. by rewrite Hs.
Qed.

Lemma sensitive_header_is_masked_witness :
  is_sensitive ("X-API-" +:+ "KEY" +:+ "-2") = true
  ∧ header_line ("X-API-" +:+ "KEY" +:+ "-2") "abcdefgh"
    = "  " +:+ ("X-API-" +:+ "KEY" +:+ "-2") +:+ ": " +:+ masked_value "abcdefgh".
Proof.
  apply (sensitive_header_is_masked "X-API-" "KEY" "-2" "abcdefgh").
  apply (bool_decide_unpack _ (dec := list_elem_of_dec _ _)). by vm_compute.
Defined.

(** ** The query suffix *)

Lemma re_sub_class_app cls r s t :
  re_sub_class cls r (s +:+ t) = re_sub_class cls r s +:+ re_sub_class cls r t.
Proof.
  induction s as [|c s IH]; [done|]. rewrite str_app_cons. simpl.
  by rewrite IH, str_app_assoc.
Qed.

Lemma re_sub_class_fixed cls r s :
  Str.all (λ c, negb (cls c)) s = true → re_sub_class cls (String r "") s = s.
Proof.
  induction s as [|c s IH]; [done|]. intros [Hc Hs]%andb_true_iff.
  rewrite re_sub_class_cons, IH by done. apply negb_true_iff in Hc. by rewrite Hc.
Qed.

Lemma slice_to_all n s : String.length s ≤ n → Str.slice_to n s = s.
Proof.
  revert s. induction n as [|n IH]; intros [|a s] H; simpl in *; try done; try lia.
  rewrite IH; [done|lia].
Qed.

(** X8: the query suffix is the first 50 characters of the query, each
    one that is not an ASCII letter or digit replaced by an underscore: it
    is as long as them, holds letters, digits and underscores only, and is
    the query itself for a query of at most 50 letters and digits. *)
Theorem query_safe_bounds (q : string) :
  String.length (query_safe q) = 50 `min` String.length q
  ∧ Str.all (λ c, is_alnum c || Ascii.eqb c "_") (query_safe q) = true
  ∧ (Str.all is_alnum q = true → String.length q ≤ 50 → query_safe q = q).
Proof.
  unfold query_safe. split; [|split].
  - by rewrite slice_to_length, re_sub_class_length.
  - apply all_slice_to.
    generalize (re_sub_class_clean (λ c, negb (is_alnum c)) "_" q). apply all_impl.
    intros c. by rewrite negb_involutive.
  - intros Hq Hlen. rewrite re_sub_class_fixed.
    + by apply slice_to_all.
    + revert Hq. apply all_impl. intros c. by rewrite negb_involutive.
Qed.

Section NameFacts.

Implicit Types (s t : string) (c : ascii).

Lemma rfind_None c s : Str.contains c s = false → Str.rfind c s = None.
Proof.
  induction s as [|a s IH]; [done|]. simpl. destruct (Ascii.eqb a c); [done|].
  intros H. by rewrite IH.
Qed.

Lemma rfind_app c s t :
  Str.rfind c (s +:+ t)
  = match Str.rfind c t with
    | Some j => Some (String.length s + j)
    | None => Str.rfind c s
    end.
Proof.
  induction s as [|a s IH].
  - rewrite str_app_nil_l. by destruct (Str.rfind c t).
  - rewrite str_app_cons. simpl. rewrite IH. by destruct (Str.rfind c t).
Qed.

Lemma slice_to_app_length s t : Str.slice_to (String.length s) (s +:+ t) = s.
Proof. rewrite slice_to_app by done. by apply slice_to_all. Qed.

Lemma slice_from_app_length s t : Str.slice_from (String.length s) (s +:+ t) = t.
Proof.
  induction s as [|a s IH]; [by destruct t|]. by rewrite str_app_cons.
Qed.

Lemma re_sub_class_contains_other cls r c s :
  cls c = false → Ascii.eqb r c = false →
  Str.contains c (re_sub_class cls (String r "") s) = Str.contains c s.
Proof.
  intros Hc Hr. induction s as [|a s IH]; [done|]. rewrite re_sub_class_cons. simpl.
  rewrite IH. destruct (cls a) eqn:Ha; [|done]. rewrite Hr.
  destruct (Ascii.eqb a c) eqn:Hac; [|done]. apply Ascii.eqb_eq in Hac. congruence.
Qed.

Lemma sanitize_filename_dots s :
  Str.all (λ c, Ascii.eqb c ".") (sanitize_filename s) = Str.all (λ c, Ascii.eqb c ".") s.
Proof.
  induction s as [|a s IH]; [done|]. unfold sanitize_filename in *.
  rewrite re_sub_class_cons. simpl. rewrite IH. f_equal.
  destruct (is_forbidden a) eqn:Ha; [|done].
  clear -Ha. destruct a as [[] [] [] [] [] [] [] []]; by vm_compute in Ha |- *.
Qed.

Lemma sanitize_filename_all_dots s :
  Str.all (λ c, Ascii.eqb c ".") s = true → sanitize_filename s = s.
Proof.
  intros H. apply re_sub_class_fixed. revert H. apply all_impl.
  intros c Hc. by apply Ascii.eqb_eq in Hc as ->.
Qed.

Lemma os_path_splitext_js st :
  Str.contains "/" st = false →
  os_path_splitext (st +:+ ".js")
  = if Str.all (λ c, Ascii.eqb c ".") st then (st +:+ ".js", "") else (st, ".js").
Proof.
  intros Hs. unfold os_path_splitext.
  rewrite (rfind_None "/" (st +:+ ".js")) by (by rewrite contains_app, Hs).
  rewrite rfind_app. change (Str.rfind "." ".js") with (Some 0). cbv beta iota.
  rewrite Nat.add_0_r. unfold Str.slice. change (Str.slice_from 0 (st +:+ ".js")) with (st +:+ ".js").
  rewrite Nat.sub_0_r, slice_to_app_length, slice_from_app_length.
  by destruct (Str.all _ st).
Qed.

End NameFacts.

(** X9: for a name that ends in .js and a non-empty query, the query
    suffix goes between the stem and the extension; when the stem is made
    of dots only (or is empty) the name has no extension for
    [os.path.splitext] and the suffix goes after .js. *)
Theorem query_suffix_goes_before_extension (stem q : string) :
  Str.contains "/" stem = false →
  q ≠ "" →
  final_file_name (stem +:+ ".js") q
  = if Str.all (λ c, Ascii.eqb c ".") stem
    then (stem +:+ ".js") +:+ "_" +:+ query_safe q
    else sanitize_filename stem +:+ "_" +:+ query_safe q +:+ ".js".
Proof.
  intros Hs Hq. unfold final_file_name. apply String.eqb_neq in Hq. rewrite Hq.
  cbn [negb]. unfold sanitize_filename at 1. rewrite re_sub_class_app.
  change (re_sub_class is_forbidden "_" ".js") with ".js".
  fold (sanitize_filename stem).
  rewrite os_path_splitext_js
    by (unfold sanitize_filename; by rewrite re_sub_class_contains_other).
  rewrite sanitize_filename_dots.
  destruct (Str.all (λ c, Ascii.eqb c ".") stem) eqn:Hd.
  - by rewrite (sanitize_filename_all_dots _ Hd), str_app_nil_r.
  - done.
Qed.

Lemma query_suffix_goes_before_extension_witness :
  final_file_name ("jquery.min" +:+ ".js") "v=3.7"
  = sanitize_filename "jquery.min" +:+ "_" +:+ query_safe "v=3.7" +:+ ".js"
  ∧ final_file_name ("." +:+ ".js") "v=3.7" = ("." +:+ ".js") +:+ "_" +:+ query_safe "v=3.7".
Proof.
  split.
  - apply (query_suffix_goes_before_extension "jquery.min" "v=3.7"); by vm_compute.
  - apply (query_suffix_goes_before_extension "." "v=3.7"); by vm_compute.
Defined.

Lemma endswith_inv suf s : Str.endswith suf s = true → ∃ pre, s = pre +:+ suf.
Proof.
  unfold Str.endswith. intros [_ H]%andb_true_iff. apply String.eqb_eq in H.
  exists (Str.slice_to (String.length s - String.length suf) s).
  rewrite <-H at 2. apply slice_split.
Qed.

Lemma endswith_app pre suf : Str.endswith suf (pre +:+ suf) = true.
Proof.
  unfold Str.endswith. rewrite str_app_length.
  replace (String.length pre + String.length suf - String.length suf)
    with (String.length pre) by lia.
  rewrite slice_from_app_length, String.eqb_refl, andb_true_r.
  apply Nat.leb_le. lia.
Qed.

Lemma file_and_dirs_name parsed_url :
  Str.endswith ".js" (file_and_dirs parsed_url).1 = true
  ∧ Str.contains "/" (file_and_dirs parsed_url).1 = false
  ∧ Forall (λ part, Str.contains "/" part = false) (tail (file_and_dirs parsed_url).2).
Proof.
  unfold file_and_dirs.
  destruct (negb (String.eqb (Str.strip is_slash (path parsed_url)) "")); [|done].
  pose proof (split_no_sep_parts "/" (Str.strip is_slash (path parsed_url))) as Hparts.
  pose proof (split_nonempty "/" (Str.strip is_slash (path parsed_url))) as Hne.
  destruct (Str.split "/" (Str.strip is_slash (path parsed_url))) as [|x l] eqn:E
    using rev_ind; [done|]. clear IHl.
  rewrite last_last, removelast_last.
  apply Forall_app in Hparts as [Hl Hx]. inversion Hx; subst.
  destruct (Str.endswith ".js" x) eqn:Hjs; simpl; [done|].
  repeat split; try done. by apply Forall_app.
Qed.

(** X10: the name the mapper takes from the path, before sanitising,
    ends in .js and holds no slash, and so does the final file name of a
    URL without query. *)
Theorem file_name_ends_in_js chk (url base_dir dir_path file_name : string)
    (parsed_url : ParseResult) :
  urlparse chk url = inr parsed_url →
  query parsed_url = "" →
  create_directory_structure chk url base_dir = inr (dir_path, file_name) →
  Str.endswith ".js" (file_and_dirs parsed_url).1 = true
  ∧ file_name = sanitize_filename (file_and_dirs parsed_url).1
  ∧ Str.endswith ".js" file_name = true.
Proof.
  intros Hp Hq. rewrite (create_directory_structure_parsed _ _ _ _ Hp), Hq.
  intros [= _ <-]. destruct (file_and_dirs_name parsed_url) as (Hjs & _ & _).
  split; [done|]. split; [done|]. unfold final_file_name. simpl.
  destruct (endswith_inv _ _ Hjs) as (pre & ->).
  unfold sanitize_filename. rewrite re_sub_class_app.
  change (re_sub_class is_forbidden "_" ".js") with ".js". apply endswith_app.
Qed.

Lemma file_name_ends_in_js_witness :
  Str.endswith ".js" "a:b.js" = true
  ∧ "a_b.js" = sanitize_filename "a:b.js"
  ∧ Str.endswith ".js" "a_b.js" = true.
Proof.
  apply (file_name_ends_in_js accept_bracketed "https://example.com/x/a:b.js#top"
           "out" "out/example.com/x" "a_b.js"
           {| scheme := "https"; netloc := "example.com"; path := "/x/a:b.js";
              params := ""; query := ""; fragment := "top" |}); by vm_compute.
Defined.

(** ** Where the mapped path lies *)

Lemma find_slice_to c s i k :
  Str.find c s = Some i → k ≤ i → Str.contains c (Str.slice_to k s) = false.
Proof.
  revert i k. induction s as [|a s IH]; intros i k; [done|]. simpl.
  destruct (Ascii.eqb a c) eqn:Ha.
  - intros [= <-] Hk. by replace k with 0 by lia.
  - destruct (Str.find c s) as [j|]; [|done]. intros [= <-] Hk.
    destruct k as [|k]; [done|]. simpl. rewrite Ha. apply (IH j); [done|lia].
Qed.

Lemma find_None_inv c s : Str.find c s = None → Str.contains c s = false.
Proof.
  induction s as [|a s IH]; [done|]. simpl. destruct (Ascii.eqb a c); [done|].
  destruct (Str.find c s); [done|]. auto.
Qed.

Lemma _splitnetloc_no_slash url : Str.contains "/" (_splitnetloc url 2).1 = false.
Proof.
  unfold _splitnetloc. cbn [foldl fst]. unfold Str.find_from, Str.slice.
  set (u := Str.slice_from 2 url).
  destruct (Str.find "/" u) as [i|] eqn:Hi.
  - apply (find_slice_to _ _ _ _ Hi). cbn [fmap option_fmap option_map].
    destruct (Str.find "?" u), (Str.find "#" u); cbn [fmap option_fmap option_map]; lia.
  - apply find_None_inv in Hi.
    match goal with |- Str.contains _ (Str.slice_to ?k u) = false =>
      destruct (Str.contains "/" (Str.slice_to k u)) eqn:E; [|done] end.
    apply contains_slice_to in E. congruence.
Qed.

Lemma urlparse_netloc_no_slash chk url parsed_url :
  urlparse chk url = inr parsed_url → Str.contains "/" (netloc parsed_url) = false.
Proof.
  unfold urlparse, urlsplit.
  destruct (split_scheme _) as [sch u]. 
  destruct (split_authority chk u) as [e|[n rest]] eqn:Ha; [done|]. simpl.
  assert (Str.contains "/" n = false) as Hn.
  { revert Ha. unfold split_authority.
    destruct (String.eqb (Str.slice_to 2 u) "//"); [|by intros [= <- _]].
    pose proof (_splitnetloc_no_slash u) as H.
    destruct (_splitnetloc u 2) as [n' rest']. simpl in H. intros Ha.
    assert (n = n') as ->; [|done].
    repeat match type of Ha with
           | context [if ?x then _ else _] => destruct x
           | context [match chk ?x with _ => _ end] => destruct (chk x)
           end; by inversion Ha. }
  repeat match goal with
         | |- context [match ?x with Some _ => _ | None => _ end] => destruct x
         | |- context [let (_, _) := ?x in _] => destruct x
         end; unfold bind, ret; cbv beta iota;
    (destruct (_ && _); [destruct (_splitparams _)|]);
    intros Heq; injection Heq as <-; exact Hn.
Qed.

Lemma startswith_slash s : Str.contains "/" s = false → Str.startswith "/" s = false.
Proof.
  destruct s as [|a s]; [done|]. unfold Str.startswith.
  change (Str.contains "/" (String a s))
    with (if Ascii.eqb a "/" then true else Str.contains "/" s).
  change (String.prefix "/" (String a s))
    with (if ascii_dec "/" a then String.prefix "" s else false).
  destruct (ascii_dec "/" a) as [<-|]; [|done]. by rewrite Ascii.eqb_refl.
Qed.

Lemma os_path_join_appends a (parts : list string) :
  Forall (λ b, Str.contains "/" b = false) parts →
  ∃ rest, os_path_join a parts = a +:+ rest.
Proof.
  intros Hparts. revert a. induction Hparts as [|b parts Hb _ IH]; intros a.
  { exists "". by rewrite str_app_nil_r. }
  unfold os_path_join in *. cbn [foldl]. rewrite (startswith_slash _ Hb).
  destruct (String.eqb a "" || Str.endswith "/" a).
  - destruct (IH (a +:+ b)) as (rest & ->). exists (b +:+ rest). by rewrite str_app_assoc.
  - destruct (IH (a +:+ "/" +:+ b)) as (rest & ->). exists ("/" +:+ b +:+ rest).
    by rewrite !str_app_assoc.
Qed.

Lemma final_file_name_no_slash name q :
  Str.contains "/" name = false → Str.contains "/" (final_file_name name q) = false.
Proof.
  intros Hn. unfold final_file_name.
  assert (Str.contains "/" (sanitize_filename name) = false) as Hs.
  { unfold sanitize_filename. by rewrite re_sub_class_contains_other. }
  destruct (negb (String.eqb q "")); [|done].
  destruct (os_path_splitext (sanitize_filename name)) as [b e] eqn:He.
  destruct (os_path_splitext_contains "/" _ _ _ He) as [Hb Hext].
  rewrite !contains_app.
  destruct (Str.contains "/" b); [by rewrite Hb in Hs|].
  destruct (Str.contains "/" e); [by rewrite Hext in Hs|].
  simpl. rewrite orb_false_r.
  apply (all_contains (λ c, is_alnum c || Ascii.eqb c "_")); [|done].
  unfold query_safe. apply all_slice_to.
  generalize (re_sub_class_clean (λ c, negb (is_alnum c)) "_" q). apply all_impl.
  intros c. by rewrite negb_involutive.
Qed.

(** X11: the mapped directory path is the base directory with text
    appended (no part makes [os.path.join] start over from the root), the
    parts appended hold no slash of their own, and the file name holds no
    slash: the file is written directly in the mapped directory. *)
Theorem mapped_path_extends_base_dir chk (url base_dir dir_path file_name : string) :
  create_directory_structure chk url base_dir = inr (dir_path, file_name) →
  String.prefix base_dir dir_path = true
  ∧ Str.contains "/" file_name = false
  ∧ ∃ parsed_url,
      urlparse chk url = inr parsed_url
      ∧ Forall (λ part, Str.contains "/" part = false) (dir_segments parsed_url).
Proof.
  intros H. destruct (urlparse chk url) as [e|parsed_url] eqn:Hp.
  { unfold create_directory_structure in H. by rewrite Hp in H. }
  rewrite (create_directory_structure_parsed _ _ _ _ Hp) in H. injection H as <- <-.
  destruct (file_and_dirs_name parsed_url) as (_ & Hname & Htail).
  assert (Forall (λ part, Str.contains "/" part = false) (dir_segments parsed_url))
    as Hsegs.
  { unfold dir_segments. apply Forall_fmap.
    assert (Forall (λ part, Str.contains "/" part = false) (file_and_dirs parsed_url).2)
      as Hdirs.
    { assert (∃ l, (file_and_dirs parsed_url).2 = netloc parsed_url :: l) as (l & Hl).
      { unfold file_and_dirs. repeat match goal with
          | |- context [if ?x then _ else _] => destruct x end; by eexists. }
      rewrite Hl in *. constructor; [|done]. by apply (urlparse_netloc_no_slash chk url). }
    eapply Forall_impl; [exact Hdirs|]. intros part Hpart. simpl.
    unfold sanitize_filename. by rewrite re_sub_class_contains_other. }
  split; [|split].
  - destruct (os_path_join_appends base_dir _ Hsegs) as (rest & ->). apply prefix_app.
  - by apply final_file_name_no_slash.
  - by exists parsed_url.
Qed.

Lemma mapped_path_extends_base_dir_witness :
  String.prefix "./js_files" "./js_files/example.com/a/b" = true
  ∧ Str.contains "/" "index_x_1.js" = false
  ∧ ∃ parsed_url,
      urlparse accept_bracketed "https://example.com//a/b/?x=1" = inr parsed_url
      ∧ Forall (λ part, Str.contains "/" part = false) (dir_segments parsed_url).
Proof.
  apply (mapped_path_extends_base_dir accept_bracketed "https://example.com//a/b/?x=1"
           "./js_files" "./js_files/example.com/a/b" "index_x_1.js").
  by vm_compute.
Defined.

(** ** The headers of a request *)

(** X12: every request carries a User-Agent header; every custom header
    is sent with its value, a custom User-Agent in place of the default
    one; nothing else is sent. *)
Theorem request_headers_contents (custom_headers : option (gmap string string)) :
  is_Some (request_headers custom_headers !! "User-Agent")
  ∧ (∀ h k v, custom_headers = Some h → h !! k = Some v →
       request_headers custom_headers !! k = Some v)
  ∧ (∀ k v, request_headers custom_headers !! k = Some v →
       (k = "User-Agent" ∧ default_headers !! k = Some v)
       ∨ ∃ h, custom_headers = Some h ∧ h !! k = Some v).
Proof.
  split; [|split].
  - unfold request_headers. destruct custom_headers as [h|]; [|by eexists].
    case_bool_decide; [by eexists|].
    destruct (h !! "User-Agent") as [v|] eqn:E.
    + exists v. by apply lookup_union_Some_l.
    + eexists. rewrite lookup_union_r by done. reflexivity.
  - intros h k v -> Hk. by apply request_headers_lookup.
  - intros k v. unfold request_headers, default_headers.
    destruct custom_headers as [h|].
    + case_bool_decide.
      * intros [<- <-]%lookup_singleton_Some. left. split; [done|].
        by apply lookup_singleton_Some.
      * intros [Hh|[_ [<- <-]%lookup_singleton_Some]]%lookup_union_Some_raw.
        -- right. by exists h.
        -- left. split; [done|]. by apply lookup_singleton_Some.
    + intros [<- <-]%lookup_singleton_Some. left. split; [done|].
      by apply lookup_singleton_Some.
Qed.

(** ** Headers of the command line *)

Lemma collect_headers_snoc (headers : list string) (header : string) :
  collect_headers (Some (headers ++ [header])) None
  = add_header (collect_headers (Some headers) None) header.
Proof. unfold collect_headers. by rewrite foldl_app. Qed.

(** X13: the last [-H] argument for a name decides its value: after the
    argument [key:value], whatever came before, the name (without the white
    space around it) is bound to the value (without the white space around
    it), colons in the value included; an argument without colon changes
    nothing. *)
Theorem last_header_argument_wins (headers : list string) (key value : string) :
  Str.contains ":" key = false →
  collect_headers (Some (headers ++ [key +:+ ":" +:+ value])) None
    !! Str.strip Str.is_space key
  = Some (Str.strip Str.is_space value)
  ∧ (∀ header, Str.contains ":" header = false →
       collect_headers (Some (headers ++ [header])) None
       = collect_headers (Some headers) None).
Proof.
  intros Hk. split.
  - rewrite collect_headers_snoc. unfold add_header.
    change (":" +:+ value) with (String ":" value).
    rewrite (split_once_app ":" key value Hk). apply lookup_insert_eq.
  - intros header Hh. rewrite collect_headers_snoc. unfold add_header.
    by rewrite (split_once_None _ _ Hh).
Qed.

Lemma last_header_argument_wins_witness :
  collect_headers
    (Some (["Authorization: old"; "X-Id: 1"] ++ [" Authorization " +:+ ":" +:+ " Bearer a:b "]))
    None !! Str.strip Str.is_space " Authorization "
  = Some (Str.strip Str.is_space " Bearer a:b ").
Proof.
  refine (proj1 (last_header_argument_wins ["Authorization: old"; "X-Id: 1"]
                   " Authorization " " Bearer a:b " _)).
  by vm_compute.
Defined.

(** ** More on the worker *)

Lemma create_directory_structure_raises_ValueError chk url base_dir e :
  create_directory_structure chk url base_dir = inl e → exn_cls e = Exception.
Proof.
  unfold create_directory_structure, urlparse, urlsplit.
  destruct (split_scheme _) as [sch u].
  destruct (split_authority chk u) as [e'|[n rest]] eqn:Ha.
  - simpl. intros [= <-]. revert Ha. unfold split_authority.
    repeat match goal with
           | |- context [if ?x then _ else _] => destruct x
           | |- context [let (_, _) := ?x in _] => destruct x
           | |- context [match chk ?x with _ => _ end] => destruct (chk x)
           end; by intros [= <-].
  - simpl.
    repeat match goal with
           | |- context [match ?x with Some _ => _ | None => _ end] => destruct x
           | |- context [let (_, _) := ?x in _] => destruct x
           end; unfold bind, ret; cbv beta iota;
      (destruct (_ && _); [destruct (_splitparams _)|]); simpl;
      by destruct (file_and_dirs _).
Qed.

Section WorkerMore.

Context {R : Runtime}.

Implicit Types (w : World) (url output_dir : string)
  (custom_headers : option (gmap string string)).

#[local] Arguments os_path_join : simpl never.
#[local] Arguments request_headers : simpl never.

Ltac step_io :=
  unfold download_js_try, io_bind, io_ret, io_raise, lift, makedirs, exists_,
    write_file, relpath, get, raise_for_status, on_sys, print, print_end; simpl.

(** X14: a URL the mapper refuses costs nothing: the worker creates no
    directory, sends no request, prints the exception as an unexpected
    error and returns the failure pair. *)
Theorem refused_url_touches_nothing url output_dir custom_headers w e :
  create_directory_structure check_bracketed_netloc url output_dir = inl e →
  download_js url output_dir custom_headers w
  = (inr (false, url),
     {| sys := sys w; sent := sent w;
        stdout := stdout w
                  ++ [("[ERROR] " +:+ url +:+ ": Unexpected error: " +:+ exn_str e)
                      +:+ nl] |}).
Proof.
  intros H. pose proof (create_directory_structure_raises_ValueError _ _ _ _ H) as Hcls.
  pose proof (download_js_try_map_raises url output_dir custom_headers w e H) as Htry.
  destruct (download_js_handles _ _ _ _ _ _ Htry) as (line & -> & ->).
  by rewrite Hcls.
Qed.

(** X15: a request that raises, or that is answered with an error
    status, leaves the file system as the request left it (nothing is
    written); one request is recorded, the failure pair is returned and the
    line printed is [TIMEOUT] for a timeout and [ERROR] with the text of the
    exception otherwise. *)
Theorem failed_request_writes_nothing url output_dir custom_headers w
    (dir_path filename : string) (s1 s2 : Sys) (answer : result Response) (e : exn) :
  create_directory_structure check_bracketed_netloc url output_dir
  = inr (dir_path, filename) →
  os_makedirs dir_path (sys w) = (inr (), s1) →
  os_path_exists (os_path_join dir_path [filename]) s1 = false →
  requests_get url (request_headers custom_headers) s1 = (answer, s2) →
  match answer with
  | inl raised => Some raised
  | inr response => HTTPError <$> http_error response
  end = Some e →
  download_js url output_dir custom_headers w
  = (inr (false, url),
     {| sys := s2;
        sent := sent w ++ [(url, request_headers custom_headers)];
        stdout := stdout w
                  ++ [match exn_cls e with
                      | Timeout => "[TIMEOUT] " +:+ url
                      | RequestException => "[ERROR] " +:+ url +:+ ": " +:+ exn_str e
                      | Exception =>
                          "[ERROR] " +:+ url +:+ ": Unexpected error: " +:+ exn_str e
                      end +:+ nl] |}).
Proof.
  intros Hmap Hmk Hex Hget Hfail.
  assert (download_js_try url output_dir custom_headers w
          = (inl e, {| sys := s2;
                       sent := sent w ++ [(url, request_headers custom_headers)];
                       stdout := stdout w |})) as Htry.
  { step_io. rewrite Hmap, Hmk. simpl. rewrite Hex. simpl. rewrite Hget. simpl.
    destruct answer as [raised|response]; [by injection Hfail as ->|].
    simpl in *. destruct (http_error response) as [msg|]; [|done].
    injection Hfail as <-. by step_io. }
  destruct (download_js_handles _ _ _ _ _ _ Htry) as (line & -> & ->). reflexivity.
Qed.

Lemma download_js_success_inv url output_dir custom_headers w w1 :
  download_js url output_dir custom_headers w = (inr (true, url), w1) →
  sent w1 ≠ sent w →
  ∃ d f s1 response s2,
    create_directory_structure check_bracketed_netloc url output_dir = inr (d, f)
    ∧ os_makedirs d (sys w) = (inr (), s1)
    ∧ requests_get url (request_headers custom_headers) s1 = (inr response, s2)
    ∧ (write_text (os_path_join d [f]) (text response) s2).1 = inr ()
    ∧ sys w1 = (write_text (os_path_join d [f]) (text response) s2).2.
Proof.
  intros H Hsent. unfold download_js, try_except in H.
  destruct (download_js_try url output_dir custom_headers w) as [[e|r] w'] eqn:Htry.
  { destruct e as [[] msg]; simpl in H; unfold io_bind, print, print_end, io_ret in H;
      simpl in H; by inversion H. }
  injection H as -> ->. revert Htry. step_io.
  destruct (create_directory_structure check_bracketed_netloc url output_dir)
    as [e|[d f]] eqn:Hmap; [done|]. simpl.
  destruct (os_makedirs d (sys w)) as [[e|[]] s1] eqn:Hmk; simpl; [done|].
  destruct (os_path_exists (os_path_join d [f]) s1); simpl.
  { intros [= <-]. by destruct Hsent. }
  destruct (requests_get url (request_headers custom_headers) s1)
    as [[e|response] s2] eqn:Hget; simpl; [done|].
  destruct (http_error response); step_io; [done|].
  destruct (write_text (os_path_join d [f]) (text response) s2) as [[e|[]] s3] eqn:Hw;
    simpl; [done|].
  intros [= <-]. exists d, f, s1, response, s2. by rewrite Hw.
Qed.

(** X16: running the worker again on a URL it has just downloaded skips
    it: when the first run sent a request and returned success, and
    creating the directory again does not raise, the second run returns
    success without a request and prints the skip line. *)
Theorem second_run_skips `{!FileSystemLaws R} `{!FileWriteLaws R}
    url output_dir custom_headers custom_headers' w w1 (dir_path filename : string) :
  create_directory_structure check_bracketed_netloc url output_dir
  = inr (dir_path, filename) →
  download_js url output_dir custom_headers w = (inr (true, url), w1) →
  sent w1 ≠ sent w →
  (os_makedirs dir_path (sys w1)).1 = inr () →
  ∃ w2,
    download_js url output_dir custom_headers' w1 = (inr (true, url), w2)
    ∧ sent w2 = sent w1
    ∧ stdout w2
      = stdout w1
        ++ [("[SKIP] Already exists: " +:+ os_path_join dir_path [filename]) +:+ nl].
Proof.
  intros Hmap Hrun Hsent Hmk.
  destruct (download_js_success_inv _ _ _ _ _ Hrun Hsent)
    as (d & f & s1 & response & s2 & Hmap' & _ & _ & Hw & Hsys).
  rewrite Hmap in Hmap'. injection Hmap' as <- <-.
  pose proof (write_text_exists _ _ _ Hw) as Hex. rewrite <-Hsys in Hex.
  pose proof (os_makedirs_keeps dir_path _ _ Hex) as Hkeep.
  destruct (os_makedirs dir_path (sys w1)) as [[e|[]] s4] eqn:Hmk'; [done|].
  pose proof (download_js_try_skips url output_dir custom_headers' w1 _ _ _
                Hmap Hmk' Hkeep) as Htry.
  rewrite (download_js_returns _ _ _ _ _ _ Htry). by eexists.
Qed.

(** ** More on the scheduler *)

Lemma collect_tally total output_dir headers futures t w t' w' :
  collect total output_dir headers t futures w = (inr t', w') →
  successful t = length (filter (λ o, o.1 = true) (outcomes t)) →
  failed_urls t = (filter (λ o, o.1 = false) (outcomes t)).*2 →
  failed t = length (failed_urls t) →
  successful t' = length (filter (λ o, o.1 = true) (outcomes t'))
  ∧ failed_urls t' = (filter (λ o, o.1 = false) (outcomes t')).*2
  ∧ failed t' = length (failed_urls t').
Proof.
  revert t w. induction futures as [|url futures IH]; intros t w.
  { simpl. unfold io_ret. by intros [= <- <-]. }
  destruct (collect_one_result total output_dir headers t url w)
    as (success & w1 & H1 & _).
  simpl. unfold io_bind. rewrite H1. intros Hc Hs Hf Hn.
  apply (IH _ _ Hc); cbn [successful failed failed_urls outcomes];
    rewrite ?filter_app, ?filter_cons, ?filter_nil; cbn [fst];
    destruct success; repeat case_decide; try done;
    rewrite ?fmap_app, ?length_app, ?app_nil_r, ?Nat.add_0_r;
    cbn [length fmap list_fmap snd]; congruence.
Qed.

(** X17: the tally the scheduler returns is that of its outcomes: the
    success count is the number of outcomes with flag [True], the list of
    failed URLs is the URLs of the outcomes with flag [False], in the order
    of the outcomes, and the failure count is its length. *)
Theorem tally_counts_outcomes (urls : list string) (output_dir : string)
    (headers : gmap string string) (w : World) :
  ∃ t w',
    run_downloads urls output_dir headers w = (inr t, w')
    ∧ successful t = length (filter (λ o, o.1 = true) (outcomes t))
    ∧ failed_urls t = (filter (λ o, o.1 = false) (outcomes t)).*2
    ∧ failed t = length (failed_urls t).
Proof.
  unfold run_downloads, io_bind.
  assert (∃ us w1, remove_duplicates urls w = (inr us, w1)) as (us & w1 & ->).
  { unfold remove_duplicates. destruct (_ <? _); unfold io_bind, print, print_end, io_ret;
      simpl; by do 2 eexists. }
  match goal with |- context [collect ?n _ _ ?t0 ?fs w1] =>
    destruct (collect_result n output_dir headers fs t0 w1) as (t & w' & Hc & _);
    rewrite Hc; exists t, w'; split; [done|];
    by apply (collect_tally n output_dir headers fs t0 w1 t w' Hc) end.
Qed.

End WorkerMore.


Section SchedulerMore.

Context {R : Runtime} `{!SchedulingLaws R}.


(** X19: a URL list without duplicates is left as it is, in its order, and
    nothing is printed about duplicates. *)
Theorem remove_duplicates_keeps_distinct_list (urls : list string) (w : World) :
  NoDup urls → remove_duplicates urls w = (inr urls, w).
Proof.
  intros Hnd. unfold remove_duplicates.
  assert (length (set_order urls) = length urls) as ->.
  { apply Permutation_length, NoDup_Permutation; [apply set_order_NoDup|done|].
    apply set_order_elem. }
  by rewrite Nat.ltb_irrefl.
Qed.

End SchedulerMore.

(** ** The small runtime, once more *)

Lemma demo_file_write_laws : FileWriteLaws Demo.runtime.
Proof.
  split. intros p t s _. simpl. unfold Demo.demo_exists, Demo.demo_write. simpl.
  apply orb_true_iff. left. apply bool_decide_eq_true. rewrite lookup_insert_eq. by eexists.
Qed.

Lemma refused_url_touches_nothing_witness :
  download_js (R := Demo.runtime) "http://[" "./js_files" None
    (Demo.world Demo.empty_state)
  = (inr (false, "http://["),
     @Build_World Demo.runtime Demo.empty_state []
       ["[ERROR] http://[: Unexpected error: Invalid IPv6 URL" +:+ nl]).
Proof.
  apply (refused_url_touches_nothing (R := Demo.runtime) "http://[" "./js_files" None
           (Demo.world Demo.empty_state) (ValueError "Invalid IPv6 URL")).
  reflexivity.
Defined.

Lemma failed_request_writes_nothing_witness :
  (download_js (R := Demo.runtime) "https://example.com/missing.js" "./js_files" None
     (Demo.world Demo.empty_state)).1
  = inr (false, "https://example.com/missing.js")
  ∧ Demo.files (sys (download_js (R := Demo.runtime) "https://example.com/missing.js"
                       "./js_files" None (Demo.world Demo.empty_state)).2) = ∅.
Proof.
  rewrite (failed_request_writes_nothing (R := Demo.runtime)
             "https://example.com/missing.js" "./js_files" None
             (Demo.world Demo.empty_state) "./js_files/example.com" "missing.js"
             {| Demo.files := ∅; Demo.dirs := {["./js_files/example.com"]} ∪ ∅ |}
             {| Demo.files := ∅; Demo.dirs := {["./js_files/example.com"]} ∪ ∅ |}
             (inr {| http_error := Some "404 Client Error: Not Found"; text := "" |})
             (HTTPError "404 Client Error: Not Found")); by vm_compute.
Defined.

Lemma second_run_skips_witness :
  let url := "https://example.com/app.js" in
  let w1 := (download_js (R := Demo.runtime) url "./js_files" None
               (Demo.world Demo.empty_state)).2 in
  ∃ w2,
    download_js (R := Demo.runtime) url "./js_files" None w1 = (inr (true, url), w2)
    ∧ sent w2 = sent w1
    ∧ stdout w2
      = stdout w1 ++ ["[SKIP] Already exists: ./js_files/example.com/app.js" +:+ nl].
Proof.
  intros url w1.
  apply (second_run_skips (R := Demo.runtime)
           (FileSystemLaws0 := demo_file_system_laws)
           (FileWriteLaws0 := demo_file_write_laws)
           url "./js_files" None None (Demo.world Demo.empty_state) w1
           "./js_files/example.com" "app.js"); by vm_compute.
Defined.


Lemma remove_duplicates_keeps_distinct_list_witness :
  remove_duplicates (R := Demo.runtime)
    ["https://example.com/b.js"; "https://example.com/a.js"] (Demo.world Demo.empty_state)
  = (inr ["https://example.com/b.js"; "https://example.com/a.js"],
     Demo.world Demo.empty_state).
Proof.
  apply (remove_duplicates_keeps_distinct_list (R := Demo.runtime)
           (SchedulingLaws0 := demo_scheduling_laws)).
  apply (bool_decide_unpack _ (dec := NoDup_dec _)). by vm_compute.
Defined.

(** ** The two mappers agree on code points below 256 *)

Section Latin1.

Implicit Types (s t : string) (c a : ascii).

#[local] Notation "⟦ s ⟧" := (Unicode.of_string s) (format "⟦ s ⟧").

Lemma code_inj a c : Unicode.code a = Unicode.code c → a = c.
Proof.
  intros H. apply (f_equal ascii_of_N) in H.
  unfold Unicode.code in H. by rewrite !ascii_N_embedding in H.
Qed.

Lemma code_eqb a c : N.eqb (Unicode.code a) (Unicode.code c) = Ascii.eqb a c.
Proof.
  destruct (Ascii.eqb_spec a c) as [->|Hne]; [apply N.eqb_refl|].
  apply N.eqb_neq. intros H. by apply code_inj in H.
Qed.

Lemma of_string_app s t : ⟦s +:+ t⟧ = ⟦s⟧ ++ ⟦t⟧.
Proof. induction s as [|a s IH]; [done|]. rewrite str_app_cons. simpl. by rewrite IH. Qed.

Lemma of_string_length s : length ⟦s⟧ = String.length s.
Proof. induction s as [|a s IH]; simpl; by rewrite ?IH. Qed.

Lemma of_string_inj s t : ⟦s⟧ = ⟦t⟧ → s = t.
Proof.
  revert t. induction s as [|a s IH]; intros [|b t]; simpl; try done.
  intros [= Hc Hs]. apply code_inj in Hc as ->. by rewrite (IH _ Hs).
Qed.

Lemma of_string_eqb s t : bool_decide (⟦s⟧ = ⟦t⟧) = String.eqb s t.
Proof.
  destruct (String.eqb_spec s t) as [->|Hne].
  - by apply bool_decide_eq_true.
  - apply bool_decide_eq_false. intros H. by apply of_string_inj in H.
Qed.

Lemma of_string_nil s : bool_decide (⟦s⟧ = []) = String.eqb s "".
Proof. destruct s; [by apply bool_decide_eq_true|by apply bool_decide_eq_false]. Qed.

Lemma contains_latin1 c s : Unicode.contains (Unicode.code c) ⟦s⟧ = Str.contains c s.
Proof.
  induction s as [|a s IH]; [done|]. simpl.
  rewrite code_eqb, Ascii.eqb_sym. destruct (Ascii.eqb a c); [done|]. apply IH.
Qed.

Lemma find_latin1 c s : Unicode.find (Unicode.code c) ⟦s⟧ = Str.find c s.
Proof.
  induction s as [|a s IH]; [done|]. simpl.
  rewrite code_eqb. destruct (Ascii.eqb a c); [done|]. by rewrite IH.
Qed.

Lemma rfind_latin1 c s : Unicode.rfind (Unicode.code c) ⟦s⟧ = Str.rfind c s.
Proof.
  induction s as [|a s IH]; [done|]. simpl.
  rewrite code_eqb, IH. done.
Qed.

Lemma slice_to_latin1 n s : Unicode.slice_to n ⟦s⟧ = ⟦Str.slice_to n s⟧.
Proof.
  unfold Unicode.slice_to. revert s. induction n as [|n IH]; intros [|a s]; simpl; try done.
  by rewrite IH.
Qed.

Lemma slice_from_latin1 n s : Unicode.slice_from n ⟦s⟧ = ⟦Str.slice_from n s⟧.
Proof.
  unfold Unicode.slice_from. revert s. induction n as [|n IH]; intros [|a s]; simpl; try done.
Qed.

Lemma slice_latin1 i j s : Unicode.slice i j ⟦s⟧ = ⟦Str.slice i j s⟧.
Proof. unfold Unicode.slice, Str.slice. by rewrite slice_from_latin1, slice_to_latin1. Qed.

Lemma find_from_latin1 c start s :
  Unicode.find_from (Unicode.code c) start ⟦s⟧ = Str.find_from c start s.
Proof. unfold Unicode.find_from, Str.find_from. by rewrite slice_from_latin1, find_latin1. Qed.

Lemma split_once_latin1 c s :
  Unicode.split_once (Unicode.code c) ⟦s⟧
  = (λ p, (⟦p.1⟧, ⟦p.2⟧)) <$> Str.split_once c s.
Proof.
  induction s as [|a s IH]; [done|]. simpl.
  rewrite code_eqb. destruct (Ascii.eqb a c); [done|]. rewrite IH.
  by destruct (Str.split_once c s) as [[l r]|].
Qed.

Lemma split_latin1 c s :
  Unicode.split (Unicode.code c) ⟦s⟧ = Unicode.of_string <$> Str.split c s.
Proof.
  induction s as [|a s IH]; [done|]. simpl.
  rewrite code_eqb. destruct (Ascii.eqb a c); [by rewrite IH|]. rewrite IH.
  by destruct (Str.split c s).
Qed.

Section Predicates.

Variables (p' : N → bool) (p : ascii → bool).
Hypothesis Hp : ∀ c, p' (Unicode.code c) = p c.

Lemma lstrip_latin1 s : Unicode.lstrip p' ⟦s⟧ = ⟦Str.lstrip p s⟧.
Proof. induction s as [|a s IH]; [done|]. simpl. rewrite Hp. by destruct (p a). Qed.

Lemma rstrip_latin1 s : Unicode.rstrip p' ⟦s⟧ = ⟦Str.rstrip p s⟧.
Proof.
  induction s as [|a s IH]; [done|]. simpl. rewrite IH, Hp.
  destruct (Str.rstrip p s); [by destruct (p a)|done].
Qed.

Lemma strip_latin1 s : Unicode.strip p' ⟦s⟧ = ⟦Str.strip p s⟧.
Proof. unfold Unicode.strip, Str.strip. by rewrite rstrip_latin1, lstrip_latin1. Qed.

Lemma remove_latin1 s : Unicode.remove p' ⟦s⟧ = ⟦Str.remove p s⟧.
Proof.
  unfold Unicode.remove. induction s as [|a s IH]; [done|]. simpl. rewrite Hp, IH.
  by destruct (p a).
Qed.

Lemma all_latin1 s : Unicode.all p' ⟦s⟧ = Str.all p s.
Proof. unfold Unicode.all. induction s as [|a s IH]; [done|]. simpl. by rewrite Hp, IH. Qed.

Lemma re_sub_class_latin1 r s :
  Unicode.re_sub_class p' ⟦r⟧ ⟦s⟧ = ⟦re_sub_class p r s⟧.
Proof.
  unfold Unicode.re_sub_class. induction s as [|a s IH]; [done|].
  cbn [Unicode.of_string mbind list_bind re_sub_class]. 
  rewrite of_string_app, Hp. 
  match goal with |- _ ++ ?rest = _ =>
    change rest with (⟦s⟧ ≫= λ x : N, if p' x then ⟦r⟧ else [x]) end.
  rewrite IH.
  by destruct (p a).
Qed.

End Predicates.

Ltac by_character c := destruct c as [[] [] [] [] [] [] [] []]; reflexivity.

Lemma is_ascii_alpha_latin1 c : Unicode.is_ascii_alpha (Unicode.code c) = Str.is_ascii_alpha c.
Proof. by_character c. Qed.

Lemma is_scheme_char_latin1 c : Unicode.is_scheme_char (Unicode.code c) = is_scheme_char c.
Proof. by_character c. Qed.

Lemma is_c0_control_or_space_latin1 c :
  Unicode.is_c0_control_or_space (Unicode.code c) = is_c0_control_or_space c.
Proof. by_character c. Qed.

Lemma is_unsafe_url_byte_latin1 c :
  Unicode.is_unsafe_url_byte (Unicode.code c) = is_unsafe_url_byte c.
Proof. by_character c. Qed.

Lemma is_forbidden_latin1 c : Unicode.is_forbidden (Unicode.code c) = is_forbidden c.
Proof. by_character c. Qed.

Lemma is_not_alnum_latin1 c : negb (Unicode.is_alnum (Unicode.code c)) = negb (is_alnum c).
Proof. by_character c. Qed.

Lemma is_slash_latin1 c : Unicode.is_slash (Unicode.code c) = is_slash c.
Proof. apply code_eqb. Qed.

Lemma lower_char_latin1 c : Unicode.lower_char (Unicode.code c) = Unicode.code (Str.lower_char c).
Proof. by_character c. Qed.

Lemma lower_latin1 s : Unicode.lower ⟦s⟧ = ⟦Str.lower s⟧.
Proof.
  unfold Unicode.lower, Str.lower. induction s as [|a s IH]; [done|].
  cbn [Unicode.of_string Str.map fmap list_fmap]. rewrite lower_char_latin1. f_equal. apply IH.
Qed.

Lemma startswith_slash_latin1 s :
  Unicode.startswith (⟦"/"⟧) ⟦s⟧ = Str.startswith "/" s.
Proof.
  destruct s as [|a s]; [done|]. unfold Unicode.startswith, Str.startswith.
  change (String.prefix "/" (String a s))
    with (if ascii_dec "/" a then String.prefix "" s else false).
  destruct (ascii_dec "/" a) as [<-|Hne].
  - destruct s; by apply bool_decide_eq_true.
  - apply bool_decide_eq_false. intros H. change ([Unicode.code a] = [Unicode.code "/"]) in H.
    assert (Unicode.code a = Unicode.code "/") as Hc by congruence. by apply code_inj in Hc.
Qed.

Lemma endswith_latin1 suf s : Unicode.endswith ⟦suf⟧ ⟦s⟧ = Str.endswith suf s.
Proof.
  unfold Unicode.endswith, Str.endswith.
  by rewrite !of_string_length, slice_from_latin1, of_string_eqb.
Qed.

Lemma sanitize_filename_latin1 s :
  Unicode.sanitize_filename ⟦s⟧ = ⟦sanitize_filename s⟧.
Proof. apply (re_sub_class_latin1 _ _ is_forbidden_latin1 "_"). Qed.

Lemma query_safe_latin1 q : Unicode.query_safe ⟦q⟧ = ⟦query_safe q⟧.
Proof.
  unfold Unicode.query_safe, query_safe.
  by rewrite (re_sub_class_latin1 _ _ is_not_alnum_latin1 "_"), slice_to_latin1.
Qed.

Lemma _splitnetloc_latin1 url start :
  Unicode._splitnetloc ⟦url⟧ start
  = (⟦(_splitnetloc url start).1⟧, ⟦(_splitnetloc url start).2⟧).
Proof.
  unfold Unicode._splitnetloc, _splitnetloc.
  cbn [foldl fmap list_fmap fst snd].
  by rewrite !find_from_latin1, of_string_length, slice_latin1, slice_from_latin1.
Qed.

Lemma _splitparams_latin1 url :
  Unicode._splitparams ⟦url⟧ = (⟦(_splitparams url).1⟧, ⟦(_splitparams url).2⟧).
Proof.
  unfold Unicode._splitparams, _splitparams.
  rewrite rfind_latin1. destruct (Str.rfind "/" url) as [slash|].
  - rewrite find_from_latin1. destruct (Str.find_from ";" slash url); [|done].
    by rewrite slice_to_latin1, slice_from_latin1.
  - rewrite find_latin1. destruct (Str.find ";" url).
    + by rewrite slice_to_latin1, slice_from_latin1.
    + by rewrite of_string_length, slice_to_latin1.
Qed.

Lemma split_scheme_latin1 url :
  Unicode.split_scheme ⟦url⟧ = (⟦(split_scheme url).1⟧, ⟦(split_scheme url).2⟧).
Proof.
  unfold Unicode.split_scheme, split_scheme. rewrite find_latin1.
  destruct (Str.find ":" url) as [[|i]|]; destruct url as [|c0 url']; try done.
  cbn [Unicode.of_string]. change (Unicode.code c0 :: ⟦url'⟧) with (⟦String c0 url'⟧).
  rewrite is_ascii_alpha_latin1, slice_to_latin1,
    (all_latin1 _ _ is_scheme_char_latin1), lower_latin1, slice_from_latin1.
  by destruct (_ && _).
Qed.

Lemma os_path_splitext_latin1 p :
  Unicode.os_path_splitext ⟦p⟧
  = (⟦(os_path_splitext p).1⟧, ⟦(os_path_splitext p).2⟧).
Proof.
  unfold Unicode.os_path_splitext, os_path_splitext. rewrite !rfind_latin1.
  destruct (Str.rfind "." p) as [dotIndex|]; [|done].
  rewrite slice_latin1, (all_latin1 _ (λ c, Ascii.eqb c ".") (λ c, code_eqb c ".")).
  destruct (_ && _); [|done]. by rewrite slice_to_latin1, slice_from_latin1.
Qed.

Lemma os_path_join_latin1 (base : string) (parts : list string) :
  Unicode.os_path_join ⟦base⟧ (Unicode.of_string <$> parts) = ⟦os_path_join base parts⟧.
Proof.
  unfold Unicode.os_path_join, os_path_join. revert base.
  induction parts as [|b parts IH]; intros base; [done|].
  cbn [foldl fmap list_fmap].
  rewrite startswith_slash_latin1, of_string_nil, (endswith_latin1 "/").
  destruct (Str.startswith "/" b); [apply IH|].
  destruct (_ || _).
  - rewrite <-of_string_app. apply IH.
  - rewrite <-(IH (base +:+ "/" +:+ b)). f_equal.
    by rewrite !of_string_app.
Qed.

Lemma final_file_name_latin1 file_name q :
  Unicode.final_file_name ⟦file_name⟧ ⟦q⟧ = ⟦final_file_name file_name q⟧.
Proof.
  unfold Unicode.final_file_name, final_file_name.
  rewrite of_string_nil, sanitize_filename_latin1.
  destruct (negb _); [|done].
  rewrite os_path_splitext_latin1, query_safe_latin1.
  destruct (os_path_splitext (sanitize_filename file_name)) as [b e]. cbn [fst snd].
  by rewrite !of_string_app.
Qed.

Lemma last_latin1 (l : list string) : List.last (Unicode.of_string <$> l) [] = ⟦List.last l ""⟧.
Proof.
  induction l as [|x l IH]; [done|]. cbn [fmap list_fmap]. simpl.
  destruct l as [|y l]; [done|]. apply IH.
Qed.

Lemma removelast_latin1 (l : list string) :
  removelast (Unicode.of_string <$> l) = Unicode.of_string <$> removelast l.
Proof.
  induction l as [|x l IH]; [done|]. cbn [fmap list_fmap]. simpl.
  destruct l as [|y l]; [done|]. cbn [fmap list_fmap] in *. by rewrite IH.
Qed.

Lemma file_and_dirs_latin1 parsed_url :
  Unicode.file_and_dirs (parse_result_text parsed_url)
  = (⟦(file_and_dirs parsed_url).1⟧, Unicode.of_string <$> (file_and_dirs parsed_url).2).
Proof.
  unfold Unicode.file_and_dirs, file_and_dirs. cbn [parse_result_text Unicode.netloc Unicode.path].
  rewrite (strip_latin1 _ _ is_slash_latin1), of_string_nil.
  destruct (negb _); [|done].
  rewrite split_latin1, last_latin1, (endswith_latin1 ".js").
  destruct (Str.endswith _ _); [|done]. cbn [fst snd fmap list_fmap].
  by rewrite removelast_latin1.
Qed.

Section Mapper.

Variables (chk : string → option string) (chk' : Unicode.text → option Unicode.text).
Variable nfkc : Unicode.text → Unicode.text.

(** the two bracket checks are the same check *)
Hypothesis Hchk : ∀ netloc, chk' ⟦netloc⟧ = Unicode.of_string <$> chk netloc.

(** normalisation brings none of [/?#@:] into a network location of
    code points below 256 *)
Hypothesis Hnfkc :
  ∀ netloc, Str.contains "/" netloc = false → Unicode.nfkc_delimiter_free nfkc ⟦netloc⟧.

Lemma split_authority_latin1 url :
  Unicode.split_authority chk' ⟦url⟧
  = match split_authority chk url with
    | inl e => inl (error_text e)
    | inr (n, rest) => inr (⟦n⟧, ⟦rest⟧)
    end.
Proof.
  unfold Unicode.split_authority, split_authority.
  rewrite slice_to_latin1, (of_string_eqb _ "//").
  destruct (String.eqb _ _); [|done].
  rewrite _splitnetloc_latin1. destruct (_splitnetloc url 2) as [n rest]. cbn [fst snd].
  rewrite !contains_latin1.
  destruct (Str.contains "[" n), (Str.contains "]" n); cbn [andb orb negb]; try done.
  rewrite Hchk. by destruct (chk n).
Qed.

Lemma split_authority_no_slash url n rest :
  split_authority chk url = inr (n, rest) → Str.contains "/" n = false.
Proof.
  unfold split_authority. destruct (String.eqb _ _); [|by intros [= <- _]].
  pose proof (_splitnetloc_no_slash url) as H.
  destruct (_splitnetloc url 2) as [n' rest']. cbn [fst] in H.
  repeat match goal with
         | |- context [if ?x then _ else _] => destruct x
         | |- context [match chk ?x with _ => _ end] => destruct (chk x)
         end; try done; by intros [= <- _].
Qed.

Lemma urlsplit_latin1 url :
  Unicode.urlsplit chk' nfkc ⟦url⟧
  = match urlsplit chk url with
    | inl e => inl (error_text e)
    | inr (sch, n, p, q, f) => inr (⟦sch⟧, ⟦n⟧, ⟦p⟧, ⟦q⟧, ⟦f⟧)
    end.
Proof.
  unfold Unicode.urlsplit, urlsplit.
  rewrite (lstrip_latin1 _ _ is_c0_control_or_space_latin1),
    (remove_latin1 _ _ is_unsafe_url_byte_latin1), split_scheme_latin1.
  destruct (split_scheme _) as [sch r]. cbn [fst snd].
  rewrite split_authority_latin1.
  destruct (split_authority chk r) as [e|[n rest]] eqn:Ha; [done|]. cbn [bind].
  apply split_authority_no_slash in Ha.
  rewrite split_once_latin1.
  destruct (Str.split_once "#" rest) as [[r1 f]|]; cbn [fmap option_fmap option_map fst snd];
    rewrite split_once_latin1;
    match goal with |- context [Str.split_once "?" ?x] =>
      destruct (Str.split_once "?" x) as [[r2 q]|] end;
    cbn [fmap option_fmap option_map fst snd];
    by rewrite (proj2 (_checknetloc_accepts nfkc ⟦n⟧) (Hnfkc n Ha)).
Qed.

Lemma urlparse_latin1 url :
  Unicode.urlparse chk' nfkc ⟦url⟧
  = match urlparse chk url with
    | inl e => inl (error_text e)
    | inr parsed_url => inr (parse_result_text parsed_url)
    end.
Proof.
  unfold Unicode.urlparse, urlparse. rewrite urlsplit_latin1.
  destruct (urlsplit chk url) as [e|[[[[sch n] p] q] f]]; [done|]. cbn [bind].
  assert (bool_decide (⟦sch⟧ ∈ Unicode.of_string <$> uses_params)
          = bool_decide (sch ∈ uses_params))
    as ->.
  { apply bool_decide_ext. rewrite list_elem_of_fmap. split.
    - intros (y & Hy & ?). by apply of_string_inj in Hy as ->.
    - intros ?. by exists sch. }
  rewrite contains_latin1. destruct (_ && _); [|done].
  rewrite _splitparams_latin1. by destruct (_splitparams p).
Qed.

(** On a URL of code points below 256 the mapper on texts does what the
    mapper on strings does. *)
Lemma create_directory_structure_latin1 url base_dir :
  Unicode.create_directory_structure chk' nfkc ⟦url⟧ ⟦base_dir⟧
  = match create_directory_structure chk url base_dir with
    | inl e => inl (error_text e)
    | inr (dir_path, file_name) => inr (⟦dir_path⟧, ⟦file_name⟧)
    end.
Proof.
  unfold Unicode.create_directory_structure, create_directory_structure.
  rewrite urlparse_latin1. destruct (urlparse chk url) as [e|p]; [done|]. cbn [bind].
  rewrite file_and_dirs_latin1. destruct (file_and_dirs p) as [fn dirs]. cbn [fst snd].
  change (Unicode.query (parse_result_text p)) with (⟦query p⟧).
  rewrite final_file_name_latin1.
  assert (Unicode.sanitize_filename <$> (Unicode.of_string <$> dirs)
          = Unicode.of_string <$> (sanitize_filename <$> dirs))
    as ->.
  { rewrite <-!list_fmap_compose. apply list_fmap_ext. intros _ x _.
    apply sanitize_filename_latin1. }
  by rewrite os_path_join_latin1.
Qed.

End Mapper.
End Latin1.

(** with no normalisation and no check of bracketed hosts on either side *)
Lemma create_directory_structure_latin1_plain (url base_dir : string) :
  Unicode.create_directory_structure Unicode.accept_bracketed Unicode.no_normalization
    (Unicode.of_string url) (Unicode.of_string base_dir)
  = match create_directory_structure accept_bracketed url base_dir with
    | inl e => inl (error_text e)
    | inr (dir_path, file_name) =>
        inr (Unicode.of_string dir_path, Unicode.of_string file_name)
    end.
Proof.
  apply create_directory_structure_latin1; [done|]. intros netloc _. by right; left.
Qed.
